(** * RoboSafe Sentinel: the safety decision pipeline, embedded and verified

    Shallow embedding of the core of [robosafe]:
    - [core/state_machine.py]  (module [StateMachine]),
    - [core/signal_manager.py] (module [Signals]),
    - [core/rule_engine.py]    (module [Rules]),
    - [agents/analysis_agent.py], [agents/decision_agent.py],
      [agents/orchestrator_agent.py] (modules [Analysis], [Decision],
      [Orchestrator]).

    Conventions of the embedding.
    - A [datetime] is an integer number of microseconds ([Z]); every call of
      [datetime.now()] in the source becomes an explicit [now] argument.
    - A Python [float] is a rational ([Q]); comparisons are exact, the
      rounding of float arithmetic is not modelled.
    - A [dict] keyed by signal id is a [gmap string _].
    - [async with self._lock] makes each method body atomic: a method is a
      function from the state before to the state after. *)

From Stdlib Require Import ZArith QArith Bool List String Ascii Lia Lqa.
From stdpp Require Import base option gmap strings list fin_maps.
Import ListNotations.
Local Open Scope string_scope.
Local Open Scope list_scope.
Local Open Scope Z_scope.

(** ** Python values held by signals ([Any] in the source) *)

Inductive pyval : Type :=
  | PNone
  | PBool (b : bool)
  | PInt (z : Z)
  | PFloat (q : Q)
  | PStr (s : string).

(** * core/state_machine.py *)

Module StateMachine.

Inductive SafetyState : Type :=
  | INIT | NORMAL | WARNING | SLOW_50 | SLOW_25
  | STOP | ESTOP | RECOVERY | FALLBACK.

Definition SafetyState_eqb (a b : SafetyState) : bool :=
  match a, b with
  | INIT, INIT | NORMAL, NORMAL | WARNING, WARNING | SLOW_50, SLOW_50
  | SLOW_25, SLOW_25 | STOP, STOP | ESTOP, ESTOP | RECOVERY, RECOVERY
  | FALLBACK, FALLBACK => true
  | _, _ => false
  end.

Definition code (s : SafetyState) : Z :=
  match s with
  | INIT => 0x00 | NORMAL => 0x01 | WARNING => 0x02 | SLOW_50 => 0x03
  | SLOW_25 => 0x04 | STOP => 0x10 | ESTOP => 0xFF | RECOVERY => 0x20
  | FALLBACK => 0xF0
  end.

Definition max_speed_percent (s : SafetyState) : Z :=
  match s with
  | INIT => 0 | NORMAL => 100 | WARNING => 100 | SLOW_50 => 50
  | SLOW_25 => 25 | STOP => 0 | ESTOP => 0 | RECOVERY => 10
  | FALLBACK => 50
  end.

Definition allows_production (s : SafetyState) : bool :=
  match s with
  | NORMAL | WARNING | SLOW_50 | SLOW_25 => true
  | _ => false
  end.

Record StateTransition : Type := mkTransition {
  from_state : SafetyState;
  to_state : SafetyState;
  timestamp : Z;
  trigger : string;
  rule_id : option string;
  data : list (string * pyval);
}.

Definition VALID_TRANSITIONS (s : SafetyState) : list SafetyState :=
  match s with
  | INIT => [NORMAL; FALLBACK; ESTOP]
  | NORMAL => [WARNING; SLOW_50; SLOW_25; STOP; ESTOP; FALLBACK]
  | WARNING => [NORMAL; SLOW_50; SLOW_25; STOP; ESTOP; FALLBACK]
  | SLOW_50 => [NORMAL; WARNING; SLOW_25; STOP; ESTOP; FALLBACK]
  | SLOW_25 => [NORMAL; WARNING; SLOW_50; STOP; ESTOP; FALLBACK]
  | STOP => [RECOVERY; ESTOP; FALLBACK]
  | ESTOP => [RECOVERY]
  | RECOVERY => [NORMAL; STOP; ESTOP; FALLBACK]
  | FALLBACK => [NORMAL; RECOVERY; ESTOP]
  end.

(** [x in xs] on a list of states. *)
Definition state_in (x : SafetyState) (xs : list SafetyState) : bool :=
  existsb (SafetyState_eqb x) xs.

(** The machine: [_current_state], [_previous_state], [_max_history],
    [_history], [_state_entered_at].  The [on_transition] callback runs
    after the state is written and its exceptions are swallowed, so it does
    not appear in the state. *)
Record SafetyStateMachine : Type := mkMachine {
  current_state : SafetyState;
  previous_state : option SafetyState;
  max_history : Z;
  history : list StateTransition;
  state_entered_at : Z;
}.

(** [SafetyStateMachine(initial_state, max_history)] created at time [now]. *)
Definition init_machine (now : Z) (initial_state : SafetyState) (maxh : Z)
  : SafetyStateMachine :=
  {| current_state := initial_state;
     previous_state := None;
     max_history := maxh;
     history := [];
     state_entered_at := now |}.

Definition can_transition_to (sm : SafetyStateMachine) (target : SafetyState)
  : bool :=
  if SafetyState_eqb (current_state sm) target then true
  else state_in target (VALID_TRANSITIONS (current_state sm)).

(** Python's [l[-m:]]: a negative start counts from the end and is clamped
    at 0, a start that is not negative ([m <= 0]) is clamped at [len l]. *)
Definition slice_from_neg {A} (m : Z) (l : list A) : list A :=
  let len := Z.of_nat (length l) in
  let start := if (- m <? 0) then Z.max 0 (len - m) else Z.min (- m) len in
  drop (Z.to_nat start) l.

(** What a call of [transition_to] produces: the boolean it returns, the
    machine after the call, and the [StateTransition] it appended to the
    history and handed to [on_transition], if it made the transition. *)
Record Outcome : Type := mkOutcome {
  result : bool;
  machine : SafetyStateMachine;
  emitted : option StateTransition;
}.

(** [transition_to(target_state, trigger, rule_id, data, force)], run at time
    [now]. *)
Definition transition_to (now : Z) (target : SafetyState) (trig : string)
    (rid : option string) (dat : list (string * pyval)) (force : bool)
    (sm : SafetyStateMachine) : Outcome :=
  if SafetyState_eqb (current_state sm) target then mkOutcome true sm None
  else if negb force && negb (can_transition_to sm target)
  then mkOutcome false sm None
  else
    let transition :=
      {| from_state := current_state sm; to_state := target;
         timestamp := now; trigger := trig; rule_id := rid; data := dat |} in
    let h := history sm ++ [transition] in
    let h' := if (max_history sm <? Z.of_nat (length h))
              then slice_from_neg (max_history sm) h else h in
    mkOutcome true
      {| current_state := target;
         previous_state := Some (current_state sm);
         max_history := max_history sm;
         history := h';
         state_entered_at := now |}
      (Some transition).

Definition request_estop (now : Z) (trig : string) (rid : option string)
    (sm : SafetyStateMachine) : Outcome :=
  transition_to now ESTOP trig rid [] true sm.

Definition request_stop (now : Z) (trig : string) (rid : option string)
    (sm : SafetyStateMachine) : Outcome :=
  transition_to now STOP trig rid [] false sm.

Definition request_slow (now : Z) (speed_percent : Z) (trig : string)
    (rid : option string) (sm : SafetyStateMachine) : Outcome :=
  let target := if speed_percent <=? 25 then SLOW_25 else SLOW_50 in
  transition_to now target trig rid [] false sm.

Definition request_recovery (now : Z) (trig : string)
    (sm : SafetyStateMachine) : Outcome :=
  transition_to now RECOVERY trig None [] false sm.

Definition request_normal (now : Z) (trig : string)
    (sm : SafetyStateMachine) : Outcome :=
  transition_to now NORMAL trig None [] false sm.

Definition enter_fallback (now : Z) (trig : string)
    (sm : SafetyStateMachine) : Outcome :=
  transition_to now FALLBACK trig None [] true sm.

(** ** Sequences of calls *)

(** A call of one of the public transition methods, with its arguments. *)
Inductive Call : Type :=
  | CallTransitionTo (target : SafetyState) (trig : string)
      (rid : option string) (dat : list (string * pyval)) (force : bool)
  | CallRequestEstop (trig : string) (rid : option string)
  | CallRequestStop (trig : string) (rid : option string)
  | CallRequestSlow (speed_percent : Z) (trig : string) (rid : option string)
  | CallRequestRecovery (trig : string)
  | CallRequestNormal (trig : string)
  | CallEnterFallback (trig : string).

Definition perform (now : Z) (c : Call) (sm : SafetyStateMachine) : Outcome :=
  match c with
  | CallTransitionTo target trig rid dat force =>
      transition_to now target trig rid dat force sm
  | CallRequestEstop trig rid => request_estop now trig rid sm
  | CallRequestStop trig rid => request_stop now trig rid sm
  | CallRequestSlow pct trig rid => request_slow now pct trig rid sm
  | CallRequestRecovery trig => request_recovery now trig sm
  | CallRequestNormal trig => request_normal now trig sm
  | CallEnterFallback trig => enter_fallback now trig sm
  end.

(** Runs the calls in order, each at its own time; returns the final
    machine and, for every record appended on the way, the call that
    appended it. *)
Fixpoint run (cs : list (Z * Call)) (sm : SafetyStateMachine)
  : SafetyStateMachine * list (Call * StateTransition) :=
  match cs with
  | [] => (sm, [])
  | (now, c) :: rest =>
      let o := perform now c sm in
      let '(sm', log) := run rest (machine o) in
      (sm', match emitted o with
            | Some t => (c, t) :: log
            | None => log
            end)
  end.

(** The direct calls of [transition_to] in the sequence pass
    [force=False]. *)
Definition unforced (c : Call) : bool :=
  match c with
  | CallTransitionTo _ _ _ _ force => negb force
  | _ => true
  end.

(** A record whose target is in the table entry of its source. *)
Definition legal (t : StateTransition) : Prop :=
  In (to_state t) (VALID_TRANSITIONS (from_state t)).

(** The record was issued by [request_estop] (target [ESTOP]) or by
    [enter_fallback] (target [FALLBACK]). *)
Definition by_estop_or_fallback (c : Call) (t : StateTransition) : Prop :=
  match c with
  | CallRequestEstop _ _ => to_state t = ESTOP
  | CallEnterFallback _ => to_state t = FALLBACK
  | _ => False
  end.

(** The record was issued by a direct call [transition_to(.., force=True)]. *)
Definition by_direct_force (c : Call) (t : StateTransition) : Prop :=
  match c with
  | CallTransitionTo target _ _ _ true => to_state t = target
  | _ => False
  end.

(** The legal transitions, other than those through [RECOVERY], that raise
    the maximal speed. *)
Definition speed_raising : list (SafetyState * SafetyState) :=
  [ (INIT, NORMAL); (INIT, FALLBACK);
    (SLOW_50, NORMAL); (SLOW_50, WARNING);
    (SLOW_25, NORMAL); (SLOW_25, WARNING); (SLOW_25, SLOW_50);
    (SLOW_25, FALLBACK);
    (STOP, FALLBACK);
    (FALLBACK, NORMAL) ].

Definition is_speed_raising (s s' : SafetyState) : bool :=
  existsb (fun p => SafetyState_eqb (fst p) s && SafetyState_eqb (snd p) s')
          speed_raising.

(** A path [s0, s1, ...] of legal transitions that neither visits
    [RECOVERY] nor takes a speed-raising transition. *)
Fixpoint lowering_path (s : SafetyState) (path : list SafetyState) : Prop :=
  match path with
  | [] => True
  | s' :: rest =>
      In s' (VALID_TRANSITIONS s) /\ s <> RECOVERY /\ s' <> RECOVERY /\
      is_speed_raising s s' = false /\ lowering_path s' rest
  end.

(** The calls that can take the machine out of [ESTOP]: those that ask for
    [RECOVERY] and those that force the transition. *)
Definition may_leave_estop (c : Call) : bool :=
  match c with
  | CallTransitionTo target _ _ _ force =>
      force || SafetyState_eqb target RECOVERY
  | CallRequestRecovery _ | CallEnterFallback _ => true
  | _ => false
  end.

(** The records form a path that starts in [s]: each one leaves the state
    the previous one entered, and none stays where it is. *)
Fixpoint chained (s : SafetyState) (log : list StateTransition) : Prop :=
  match log with
  | [] => True
  | t :: rest =>
      from_state t = s /\ to_state t <> s /\ chained (to_state t) rest
  end.

(** The state a path of records ends in. *)
Definition end_state (s : SafetyState) (log : list StateTransition)
  : SafetyState :=
  foldl (fun _ t => to_state t) s log.

End StateMachine.

(** * core/signal_manager.py *)

Module Signals.

Inductive SignalSource : Type :=
  | ROBOT | PLC_SAFETY | SCANNER | VISION | FUMES | WELDING | WEARABLE
  | ROBOSAFE.

Inductive SignalQuality : Type :=
  | GOOD | DEGRADED | BAD | TIMEOUT | UNKNOWN.

Definition SignalQuality_eqb (a b : SignalQuality) : bool :=
  match a, b with
  | GOOD, GOOD | DEGRADED, DEGRADED | BAD, BAD | TIMEOUT, TIMEOUT
  | UNKNOWN, UNKNOWN => true
  | _, _ => false
  end.

(** [@dataclass Signal]; the fields are prefixed with [s_] because
    [SignalDefinition] has fields of the same names. *)
Record Signal : Type := mkSignal {
  s_id : string;
  s_name : string;
  s_source : SignalSource;
  s_value : pyval;
  s_timestamp : Z;
  s_quality : SignalQuality;
  s_unit : string;
  s_min_value : option Q;
  s_max_value : option Q;
  s_fail_safe_value : pyval;
}.

(** [Signal.age_ms] at time [now]: microseconds to milliseconds. *)
Definition age_ms (now : Z) (s : Signal) : Q :=
  inject_Z (now - s_timestamp s) / inject_Z 1000.

(** [Signal.is_valid] *)
Definition is_valid (s : Signal) : bool :=
  match s_quality s with
  | GOOD | DEGRADED => true
  | _ => false
  end.

(** [@dataclass SignalDefinition], fields prefixed with [d_]. *)
Record SignalDefinition : Type := mkDefinition {
  d_id : string;
  d_name : string;
  d_source : SignalSource;
  d_data_type : string;
  d_unit : string;
  d_frequency_hz : Q;
  d_timeout_ms : Q;
  d_min_value : option Q;
  d_max_value : option Q;
  d_fail_safe_value : pyval;
  d_description : string;
  d_critical : bool;
}.

(** [SignalManager]: [_definitions], [_signals] and the two counters.
    Subscribers are notified outside the lock and their exceptions are
    swallowed; they are not part of the state. *)
Record SignalManager : Type := mkManager {
  definitions : gmap string SignalDefinition;
  signals : gmap string Signal;
  update_count : nat;
  timeout_count : nat;
}.

Definition new_manager : SignalManager :=
  {| definitions := ∅; signals := ∅; update_count := 0%nat;
     timeout_count := 0%nat |}.

(** [register_signal(definition)], called at time [now] (the new [Signal]
    takes its timestamp from [default_factory=datetime.now]). *)
Definition register_signal (now : Z) (d : SignalDefinition)
    (m : SignalManager) : SignalManager :=
  {| definitions := <[d_id d := d]> (definitions m);
     signals :=
       <[d_id d :=
           {| s_id := d_id d; s_name := d_name d; s_source := d_source d;
              s_value := d_fail_safe_value d; s_timestamp := now;
              s_quality := UNKNOWN; s_unit := d_unit d;
              s_min_value := d_min_value d; s_max_value := d_max_value d;
              s_fail_safe_value := d_fail_safe_value d |}]> (signals m);
     update_count := update_count m;
     timeout_count := timeout_count m |}.

(** [register_signals(definitions)] *)
Definition register_signals (now : Z) (ds : list SignalDefinition)
    (m : SignalManager) : SignalManager :=
  foldl (fun acc d => register_signal now d acc) m ds.

(** [update_signal(signal_id, value, quality, timestamp)] at time [now];
    [ts = None] is the default [timestamp=None]. *)
Definition update_signal (now : Z) (signal_id : string) (v : pyval)
    (q : SignalQuality) (ts : option Z) (m : SignalManager)
  : bool * SignalManager :=
  match definitions m !! signal_id with
  | None => (false, m)
  | Some d =>
      let signal :=
        {| s_id := signal_id; s_name := d_name d; s_source := d_source d;
           s_value := v; s_timestamp := default now ts; s_quality := q;
           s_unit := d_unit d; s_min_value := d_min_value d;
           s_max_value := d_max_value d;
           s_fail_safe_value := d_fail_safe_value d |} in
      (true,
       {| definitions := definitions m;
          signals := <[signal_id := signal]> (signals m);
          update_count := S (update_count m);
          timeout_count := timeout_count m |})
  end.

(** [update_signals_batch(updates, quality)] at time [now]: the items of
    [updates] in order, all with the timestamp [now]; returns the number of
    signals updated. *)
Definition update_signals_batch (now : Z) (updates : list (string * pyval))
    (q : SignalQuality) (m : SignalManager) : nat * SignalManager :=
  foldl (fun acc item =>
           let r := update_signal now (fst item) (snd item) q (Some now)
                                  (snd acc) in
           (if fst r then S (fst acc) else fst acc, snd r))
        (0%nat, m) updates.

(** [get_signal(signal_id)] *)
Definition get_signal (m : SignalManager) (signal_id : string)
  : option Signal :=
  signals m !! signal_id.

(** [get_signal_value(signal_id, default, use_failsafe_if_invalid)] *)
Definition get_signal_value (m : SignalManager) (signal_id : string)
    (dflt : pyval) (use_failsafe_if_invalid : bool) : pyval :=
  match signals m !! signal_id with
  | None => dflt
  | Some signal =>
      if negb (is_valid signal) && use_failsafe_if_invalid
      then s_fail_safe_value signal
      else s_value signal
  end.

(** [get_all_signals()] *)
Definition get_all_signals (m : SignalManager) : gmap string Signal :=
  signals m.

Definition Qltb (a b : Q) : bool := negb (Qle_bool b a).

(** The test of [_check_timeouts]:
    [age_ms > definition.timeout_ms and signal.quality != TIMEOUT]. *)
Definition timeout_due (now : Z) (d : SignalDefinition) (s : Signal) : bool :=
  Qltb (d_timeout_ms d) (age_ms now s)
  && negb (SignalQuality_eqb (s_quality s) TIMEOUT).

(** The observation written by [_check_timeouts] for a signal in timeout;
    [min_value] and [max_value] are not passed and take their default. *)
Definition timed_out (signal_id : string) (s : Signal) : Signal :=
  {| s_id := signal_id; s_name := s_name s; s_source := s_source s;
     s_value := s_fail_safe_value s; s_timestamp := s_timestamp s;
     s_quality := TIMEOUT; s_unit := s_unit s;
     s_min_value := None; s_max_value := None;
     s_fail_safe_value := s_fail_safe_value s |}.

(** One iteration of the loop of [_check_timeouts] on the item
    [(signal_id, signal)]; the accumulator is [(_signals, _timeout_count)]. *)
Definition check_item (now : Z) (defs : gmap string SignalDefinition)
    (acc : gmap string Signal * nat) (item : string * Signal)
  : gmap string Signal * nat :=
  let '(signal_id, signal) := item in
  match defs !! signal_id with
  | None => acc
  | Some d =>
      if timeout_due now d signal
      then (<[signal_id := timed_out signal_id signal]> (fst acc),
            S (snd acc))
      else acc
  end.

(** [_check_timeouts()] at time [now]: the loop runs over the items of
    [_signals]; it only overwrites the key it is visiting. *)
Definition check_timeouts (now : Z) (m : SignalManager) : SignalManager :=
  let r := foldl (check_item now (definitions m))
                 (signals m, timeout_count m) (map_to_list (signals m)) in
  {| definitions := definitions m;
     signals := fst r;
     update_count := update_count m;
     timeout_count := snd r |}.

(** The items on which the loop of [_check_timeouts] writes. *)
Definition due (now : Z) (defs : gmap string SignalDefinition)
    (item : string * Signal) : bool :=
  match defs !! fst item with
  | Some d => timeout_due now d (snd item)
  | None => false
  end.

(** The number of observations a watchdog pass at [now] rewrites. *)
Definition due_count (now : Z) (m : SignalManager) : nat :=
  length (List.filter (due now (definitions m)) (map_to_list (signals m))).

(** Every stored observation belongs to a registered definition and
    carries the fail-safe value of that definition. *)
Definition consistent (m : SignalManager) : Prop :=
  forall signal_id s,
    signals m !! signal_id = Some s ->
    exists d, definitions m !! signal_id = Some d
              /\ s_fail_safe_value s = d_fail_safe_value d.

(** ** Sequences of operations on the store *)

Inductive Op : Type :=
  | OpRegister (d : SignalDefinition)
  | OpUpdate (signal_id : string) (v : pyval) (q : SignalQuality)
      (ts : option Z)
  | OpCheckTimeouts.

Definition apply_op (m : SignalManager) (nop : Z * Op) : SignalManager :=
  match snd nop with
  | OpRegister d => register_signal (fst nop) d m
  | OpUpdate signal_id v q ts => snd (update_signal (fst nop) signal_id v q ts m)
  | OpCheckTimeouts => check_timeouts (fst nop) m
  end.

Definition apply_ops (ops : list (Z * Op)) (m : SignalManager)
  : SignalManager :=
  foldl apply_op m ops.





(** The stored observations and the registered definitions agree: the same
    ids on both sides, every observation filed under its own id and carrying
    the name, source, unit and fail-safe value of its definition. *)
Definition well_formed (m : SignalManager) : Prop :=
  (forall k s, signals m !! k = Some s ->
     exists d, definitions m !! k = Some d /\
               s_id s = k /\ s_name s = d_name d /\
               s_source s = d_source d /\ s_unit s = d_unit d /\
               s_fail_safe_value s = d_fail_safe_value d) /\
  (forall k d, definitions m !! k = Some d ->
     d_id d = k /\ is_Some (signals m !! k)).


(** [get_welding_cell_signals()] *)
Definition sigdef (i n : string) (src : SignalSource) (ty u : string)
    (freq tmo : Q) (lo hi : option Q) (fs : pyval) (crit : bool)
  : SignalDefinition :=
  {| d_id := i; d_name := n; d_source := src; d_data_type := ty;
     d_unit := u; d_frequency_hz := freq; d_timeout_ms := tmo;
     d_min_value := lo; d_max_value := hi; d_fail_safe_value := fs;
     d_description := ""; d_critical := crit |}.

Definition plc_heartbeat_definition : SignalDefinition :=
  sigdef "plc_heartbeat" "Heartbeat PLC" PLC_SAFETY "int" ""
    100 500 None None (PInt 0) true.

Definition get_welding_cell_signals : list SignalDefinition :=
  [ sigdef "fanuc_tcp_speed" "Vitesse TCP" ROBOT "float" "mm/s"
      100 100 (Some 0%Q) (Some 2000%Q) (PInt 0) true;
    sigdef "fanuc_mode" "Mode robot" ROBOT "enum" ""
      10 500 None None (PStr "T1") true;
    sigdef "fanuc_servo_on" "Servos actives" ROBOT "bool" ""
      100 100 None None (PBool false) true;
    plc_heartbeat_definition;
    sigdef "scanner_zone_status" "Etat zones scanner" SCANNER "bitfield" ""
      50 100 None None (PInt 0xFF) true;
    sigdef "scanner_min_distance" "Distance min scanner" SCANNER "int" "mm"
      50 100 (Some 0%Q) (Some 8000%Q) (PInt 0) true;
    sigdef "estop_status" "Arrets urgence" PLC_SAFETY "bitfield" ""
      100 100 None None (PInt 0xFF) true;
    sigdef "arc_on" "Arc actif" WELDING "bool" ""
      100 200 None None (PBool false) false;
    sigdef "weld_current" "Courant soudage" WELDING "float" "A"
      10 1000 (Some 0%Q) (Some 500%Q) (PInt 0) false;
    sigdef "fumes_concentration" "Concentration fumees" FUMES "float" "mg/m3"
      1 5000 (Some 0%Q) (Some 50%Q) (PInt 50) false;
    sigdef "fumes_vlep_ratio" "Ratio fumees/VLEP" ROBOSAFE "float" ""
      1 5000 (Some 0%Q) (Some 3%Q) (PFloat 1) false;
    sigdef "vision_presence" "Presence detectee" VISION "bool" ""
      30 500 None None (PBool true) true;
    sigdef "vision_min_distance" "Distance min personne" VISION "int" "mm"
      30 500 (Some 0%Q) (Some 10000%Q) (PInt 0) true;
    sigdef "vision_confidence" "Confiance detection" VISION "float" ""
      30 500 (Some 0%Q) (Some 1%Q) (PInt 0) false;
    sigdef "robosafe_risk_score" "Score risque" ROBOSAFE "float" ""
      10 1000 (Some 0%Q) (Some 100%Q) (PInt 100) false ].

End Signals.

(** * core/rule_engine.py *)

Module Rules.

Import StateMachine.

(** ** The fragment of Python's dynamic semantics used by the predicates *)

(** The number denoted by a value in arithmetic and comparisons
    ([bool] is a subclass of [int]); [None] for the values on which
    an ordering comparison with a number raises [TypeError]. *)
Definition as_num (v : pyval) : option Q :=
  match v with
  | PBool b => Some (if b then 1%Q else 0%Q)
  | PInt z => Some (inject_Z z)
  | PFloat q => Some q
  | PNone | PStr _ => None
  end.

(** The integer operand of [&]; [None] where [&] raises [TypeError]. *)
Definition as_int (v : pyval) : option Z :=
  match v with
  | PBool b => Some (if b then 1 else 0)
  | PInt z => Some z
  | PFloat _ | PNone | PStr _ => None
  end.

(** [bool(v)] *)
Definition truthy (v : pyval) : bool :=
  match v with
  | PNone => false
  | PBool b => b
  | PInt z => negb (z =? 0)
  | PFloat q => negb (Qeq_bool q 0)
  | PStr s => negb (String.eqb s "")
  end.

(** [a == b]; never raises. *)
Definition py_eq (a b : pyval) : bool :=
  match as_num a, as_num b with
  | Some x, Some y => Qeq_bool x y
  | _, _ =>
      match a, b with
      | PStr x, PStr y => String.eqb x y
      | PNone, PNone => true
      | _, _ => false
      end
  end.

(** [v is None] *)
Definition is_None (v : option pyval) : bool :=
  match v with
  | None | Some PNone => true
  | Some _ => false
  end.

(** The snapshot passed to a predicate: [{signal_id: signal.value}]. *)
Abbreviation snapshot := (gmap string pyval).

(** [s.get(key, dflt)] *)
Definition sget (s : snapshot) (key : string) (dflt : pyval) : pyval :=
  default dflt (s !! key).

(** [x and y] as a truth value: [y] is evaluated only when [x] is true. *)
Definition and_then (x : option bool) (y : option bool) : option bool :=
  match x with
  | Some true => y
  | other => other
  end.

Inductive RulePriority : Type :=
  | P0_CRITICAL | P1_HIGH | P2_MEDIUM | P3_LOW | P4_DIAGNOSTIC.

Definition RulePriority_eqb (a b : RulePriority) : bool :=
  match a, b with
  | P0_CRITICAL, P0_CRITICAL | P1_HIGH, P1_HIGH | P2_MEDIUM, P2_MEDIUM
  | P3_LOW, P3_LOW | P4_DIAGNOSTIC, P4_DIAGNOSTIC => true
  | _, _ => false
  end.

Definition max_latency_ms (p : RulePriority) : Z :=
  match p with
  | P0_CRITICAL => 100 | P1_HIGH => 500 | P2_MEDIUM => 1000
  | P3_LOW => 5000 | P4_DIAGNOSTIC => 10000
  end.

Inductive ActionType : Type :=
  | ESTOP | STOP_CAT1 | SLOW_50 | SLOW_25 | ALERT | LOG | SET_DEGRADED
  | BLOCK_RESET | INCREASE_MARGIN.

Record RuleAction : Type := mkAction {
  action_type : ActionType;
  target : option string;
  message : option string;
  a_data : list (string * pyval);
}.

Record RuleResult : Type := mkResult {
  r_rule_id : string;
  triggered : bool;
  condition_values : list (string * option pyval);
  actions_executed : list ActionType;
  error : bool;
}.

(** [@dataclass Rule].  [condition s] is [None] when the predicate raises,
    otherwise the truth value of what it returns. *)
Record Rule : Type := mkRule {
  id : string;
  name : string;
  priority : RulePriority;
  condition : snapshot -> option bool;
  actions : list RuleAction;
  enabled : bool;
  cooldown_ms : Q;
  required_signals : list string;
  last_triggered : option Z;
  trigger_count : nat;
}.

(** [Rule.can_trigger()] at time [now] *)
Definition can_trigger (now : Z) (r : Rule) : bool :=
  match last_triggered r with
  | None => true
  | Some t =>
      if Qle_bool (cooldown_ms r) 0 then true
      else Qle_bool (cooldown_ms r) (inject_Z (now - t) / inject_Z 1000)
  end.

(** [Rule.mark_triggered()] at time [now] *)
Definition mark_triggered (now : Z) (r : Rule) : Rule :=
  {| id := id r; name := name r; priority := priority r;
     condition := condition r; actions := actions r; enabled := enabled r;
     cooldown_ms := cooldown_ms r; required_signals := required_signals r;
     last_triggered := Some now; trigger_count := S (trigger_count r) |}.

(** [RuleEngine]: the rules by priority, each list in registration order,
    the statistics and the bounded history of results. *)
Record RuleEngine : Type := mkEngine {
  rules_by_priority : RulePriority -> list Rule;
  results_history : list RuleResult;
  e_max_history : Z;
  eval_count : nat;
  e_trigger_count : nat;
  error_count : nat;
}.

Definition new_engine : RuleEngine :=
  {| rules_by_priority := fun _ => [];
     results_history := [];
     e_max_history := 10000;
     eval_count := 0%nat; e_trigger_count := 0%nat; error_count := 0%nat |}.

(** [register_rule(rule)] *)
Definition register_rule (r : Rule) (e : RuleEngine) : RuleEngine :=
  {| rules_by_priority := fun p =>
       if RulePriority_eqb p (priority r)
       then rules_by_priority e p ++ [r] else rules_by_priority e p;
     results_history := results_history e;
     e_max_history := e_max_history e;
     eval_count := eval_count e; e_trigger_count := e_trigger_count e;
     error_count := error_count e |}.

(** [register_rules(rules)] *)
Definition register_rules (rs : list Rule) (e : RuleEngine) : RuleEngine :=
  foldl (fun acc r => register_rule r acc) e rs.

(** [get_signal_values()]: the value of every stored signal. *)
Definition get_signal_values (m : Signals.SignalManager) : snapshot :=
  Signals.s_value <$> Signals.get_all_signals m.

(** [_execute_action(rule_id, action)]: its effect on the state machine.
    The trigger string is [f"Rule {rule_id}"]. *)
Definition execute_action (now : Z) (rule_id : string) (a : RuleAction)
    (sm : SafetyStateMachine) : SafetyStateMachine :=
  let trig := ("Rule " ++ rule_id)%string in
  match action_type a with
  | ESTOP => machine (request_estop now trig (Some rule_id) sm)
  | STOP_CAT1 => machine (request_stop now trig (Some rule_id) sm)
  | SLOW_50 => machine (request_slow now 50 trig (Some rule_id) sm)
  | SLOW_25 => machine (request_slow now 25 trig (Some rule_id) sm)
  | ALERT | LOG | SET_DEGRADED | BLOCK_RESET | INCREASE_MARGIN => sm
  end.

(** What one rule evaluation hands back: the result, the rule with its
    updated trigger state, the machine, and the increments of the engine's
    [_trigger_count] and [_error_count]. *)
Record Evaluated : Type := mkEvaluated {
  ev_result : RuleResult;
  ev_rule : Rule;
  ev_machine : SafetyStateMachine;
  ev_triggered : nat;
  ev_errors : nat;
}.

(** [evaluate_rule(rule)] at time [now], reading the signals of [m]. *)
Definition evaluate_rule (now : Z) (m : Signals.SignalManager) (r : Rule)
    (sm : SafetyStateMachine) : Evaluated :=
  let blank := {| r_rule_id := id r; triggered := false;
                  condition_values := []; actions_executed := [];
                  error := false |} in
  if negb (enabled r) then mkEvaluated blank r sm 0 0
  else if negb (can_trigger now r) then mkEvaluated blank r sm 0 0
  else
    let signal_values := get_signal_values m in
    let cvs := map (fun sig => (sig, signal_values !! sig))
                   (required_signals r) in
    match condition r signal_values with
    | None =>
        mkEvaluated {| r_rule_id := id r; triggered := false;
                       condition_values := cvs; actions_executed := [];
                       error := true |} r sm 0 1
    | Some false =>
        mkEvaluated {| r_rule_id := id r; triggered := false;
                       condition_values := cvs; actions_executed := [];
                       error := false |} r sm 0 0
    | Some true =>
        let sm' := foldl (fun acc a => execute_action now (id r) a acc)
                         sm (actions r) in
        mkEvaluated {| r_rule_id := id r; triggered := true;
                       condition_values := cvs;
                       actions_executed := map action_type (actions r);
                       error := false |}
                    (mark_triggered now r) sm' 1 0
    end.

(** The inner loop of [evaluate_all] over the rules of one priority. *)
Fixpoint evaluate_bucket (now : Z) (m : Signals.SignalManager)
    (rs : list Rule) (sm : SafetyStateMachine)
  : list Evaluated * SafetyStateMachine :=
  match rs with
  | [] => ([], sm)
  | r :: rest =>
      let ev := evaluate_rule now m r sm in
      let '(evs, sm') := evaluate_bucket now m rest (ev_machine ev) in
      (ev :: evs, sm')
  end.

Definition all_priorities : list RulePriority :=
  [P0_CRITICAL; P1_HIGH; P2_MEDIUM; P3_LOW; P4_DIAGNOSTIC].

(** The outer loop of [evaluate_all]: [for priority in RulePriority]. *)
Fixpoint evaluate_priorities (now : Z) (m : Signals.SignalManager)
    (e : RuleEngine) (ps : list RulePriority) (sm : SafetyStateMachine)
  : list (RulePriority * list Evaluated) * SafetyStateMachine :=
  match ps with
  | [] => ([], sm)
  | p :: rest =>
      let '(evs, sm1) := evaluate_bucket now m (rules_by_priority e p) sm in
      let '(more, sm2) := evaluate_priorities now m e rest sm1 in
      ((p, evs) :: more, sm2)
  end.

Definition sum_nat (l : list nat) : nat := foldr Nat.add 0%nat l.

(** [evaluate_all()] at time [now]: the results in evaluation order, the
    engine and the machine after the cycle. *)
Definition evaluate_all (now : Z) (m : Signals.SignalManager)
    (e : RuleEngine) (sm : SafetyStateMachine)
  : list RuleResult * RuleEngine * SafetyStateMachine :=
  let '(per_priority, sm') :=
    evaluate_priorities now m e all_priorities sm in
  let evs := concat (map snd per_priority) in
  let results := map ev_result evs in
  let h := results_history e ++ results in
  let h' := if (e_max_history e <? Z.of_nat (length h))
            then slice_from_neg (e_max_history e) h else h in
  (results,
   {| rules_by_priority := fun p =>
        match find (fun pe => RulePriority_eqb (fst pe) p) per_priority with
        | Some (_, pevs) => map ev_rule pevs
        | None => rules_by_priority e p
        end;
      results_history := h';
      e_max_history := e_max_history e;
      eval_count := S (eval_count e);
      e_trigger_count := (e_trigger_count e + sum_nat (map ev_triggered evs))%nat;
      error_count := (error_count e + sum_nat (map ev_errors evs))%nat |},
   sm').

(** ** [get_welding_cell_rules()] *)

Definition act (t : ActionType) (tg msg : option string)
    (d : list (string * pyval)) : RuleAction :=
  {| action_type := t; target := tg; message := msg; a_data := d |}.

Definition rule (i n : string) (p : RulePriority)
    (c : snapshot -> option bool) (acts : list RuleAction)
    (req : list string) (cd : Q) : Rule :=
  {| id := i; name := n; priority := p; condition := c; actions := acts;
     enabled := true; cooldown_ms := cd; required_signals := req;
     last_triggered := None; trigger_count := 0%nat |}.

(** [(s.get(key, 0) & mask) != 0] *)
Definition bit_set (s : snapshot) (key : string) (mask : Z) : option bool :=
  z ← as_int (sget s key (PInt 0)); Some (negb (Z.land z mask =? 0)).

(** [lo < s.get("fumes_vlep_ratio", 0) <= hi] *)
Definition fumes_between (s : snapshot) (lo hi : Q) : option bool :=
  r ← as_num (sget s "fumes_vlep_ratio" (PInt 0));
  Some (Signals.Qltb lo r && Qle_bool r hi).

Definition mode_is_auto (s : snapshot) : bool :=
  py_eq (default PNone (s !! "fanuc_mode")) (PStr "AUTO").

Definition cond_RS001 (s : snapshot) : option bool :=
  Some (negb (py_eq (sget s "estop_status" (PInt 0)) (PInt 0))).

Definition cond_RS002 (s : snapshot) : option bool :=
  Some (is_None (s !! "plc_heartbeat")).

Definition cond_RS004 (s : snapshot) : option bool :=
  and_then (Some (truthy (sget s "arc_on" (PBool false))))
    (Some (py_eq (sget s "door_status" (PStr "closed")) (PStr "open"))).

Definition cond_RS010 (s : snapshot) : option bool :=
  bit_set s "scanner_zone_status" 0x04.

Definition cond_RS011 (s : snapshot) : option bool :=
  and_then (Some (truthy (sget s "vision_presence" (PBool false))))
    (and_then
       (d ← as_num (sget s "vision_min_distance" (PInt 10000));
        Some (Signals.Qltb d 800))
       (Some (mode_is_auto s))).

Definition cond_RS013 (s : snapshot) : option bool :=
  r ← as_num (sget s "fumes_vlep_ratio" (PInt 0));
  Some (Signals.Qltb (12 # 10) r).

Definition cond_RS020 (s : snapshot) : option bool :=
  bit_set s "scanner_zone_status" 0x02.

Definition cond_RS021 (s : snapshot) : option bool :=
  and_then (Some (truthy (sget s "vision_presence" (PBool false))))
    (and_then
       (d ← as_num (sget s "vision_min_distance" (PInt 10000));
        Some (Qle_bool 800 d && Signals.Qltb d 1500))
       (Some (mode_is_auto s))).

Definition cond_RS023 (s : snapshot) : option bool :=
  fumes_between s 1 (12 # 10).

Definition cond_RS030 (s : snapshot) : option bool :=
  fumes_between s (8 # 10) 1.

Definition cond_RS032 (s : snapshot) : option bool :=
  and_then (Some (truthy (sget s "arc_on" (PBool false))))
    (and_then (Some (truthy (sget s "vision_presence" (PBool false))))
       (Some (mode_is_auto s))).

Definition cond_RS035 (s : snapshot) : option bool :=
  n ← as_num (sget s "override_count_week" (PInt 0));
  Some (Signals.Qltb 3 n).

Definition cond_RS040 (s : snapshot) : option bool :=
  Some (py_eq (default PNone (s !! "camera_status")) (PStr "fault")).

Definition cond_RS041 (s : snapshot) : option bool :=
  Some (py_eq (default PNone (s !! "fumes_sensor_status")) (PStr "fault")).

Definition RS002 : Rule :=
  rule "RS-002" "PLC heartbeat timeout" P0_CRITICAL cond_RS002
    [ act ESTOP None (Some "PLC communication lost") [];
      act ALERT (Some "HSE,MAINT") None [] ]
    ["plc_heartbeat"] 0.

Definition get_welding_cell_rules : list Rule :=
  [ rule "RS-001" "E-STOP pressed" P0_CRITICAL cond_RS001
      [ act ESTOP None (Some "E-STOP activated") [];
        act LOG None None [("source", PStr "estop_button")] ]
      ["estop_status"] 0;
    RS002;
    rule "RS-004" "Arc ON + Door open" P0_CRITICAL cond_RS004
      [ act ESTOP None (Some "Arc active with door open") [];
        act ALERT (Some "OPERATOR") None [] ]
      ["arc_on"; "door_status"] 0;
    rule "RS-010" "Scanner PROTECT zone" P1_HIGH cond_RS010
      [ act STOP_CAT1 None None [];
        act LOG None None [("zone", PStr "PROTECT")] ]
      ["scanner_zone_status"] 0;
    rule "RS-011" "Vision distance critical AUTO" P1_HIGH cond_RS011
      [ act STOP_CAT1 None None [];
        act LOG None None [("trigger", PStr "vision_distance")] ]
      ["vision_presence"; "vision_min_distance"; "fanuc_mode"] 0;
    rule "RS-013" "Fumes critical" P1_HIGH cond_RS013
      [ act STOP_CAT1 None None [];
        act ALERT (Some "OPERATOR,HSE") (Some "Fumees >120% VLEP") [] ]
      ["fumes_vlep_ratio"] 5000;
    rule "RS-020" "Scanner WARN zone" P2_MEDIUM cond_RS020
      [ act SLOW_50 None None [] ]
      ["scanner_zone_status"] 0;
    rule "RS-021" "Vision distance warning AUTO" P2_MEDIUM cond_RS021
      [ act SLOW_50 None None [] ]
      ["vision_presence"; "vision_min_distance"; "fanuc_mode"] 0;
    rule "RS-023" "Fumes high" P2_MEDIUM cond_RS023
      [ act SLOW_25 None None [];
        act ALERT (Some "OPERATOR") (Some "Fumees 100-120% VLEP") [] ]
      ["fumes_vlep_ratio"] 10000;
    rule "RS-030" "Fumes warning" P3_LOW cond_RS030
      [ act ALERT (Some "OPERATOR") (Some "Fumees 80-100% VLEP") [];
        act LOG None None [("type", PStr "exposure_warning")] ]
      ["fumes_vlep_ratio"] 30000;
    rule "RS-032" "Arc exposure" P3_LOW cond_RS032
      [ act ALERT (Some "OPERATOR") (Some "Exposition arc UV detectee") [];
        act LOG None None [("type", PStr "arc_exposure")] ]
      ["arc_on"; "vision_presence"; "fanuc_mode"] 60000;
    rule "RS-035" "Override excessive" P3_LOW cond_RS035
      [ act ALERT (Some "HSE") (Some "Overrides securite >3/semaine") [] ]
      ["override_count_week"] 86400000;
    rule "RS-040" "Camera fault" P4_DIAGNOSTIC cond_RS040
      [ act SET_DEGRADED None None [("system", PStr "vision")];
        act ALERT (Some "MAINT") None [];
        act INCREASE_MARGIN None None [("percent", PInt 30)] ]
      ["camera_status"] 0;
    rule "RS-041" "Fumes sensor fault" P4_DIAGNOSTIC cond_RS041
      [ act SET_DEGRADED None None [("system", PStr "fumes")];
        act ALERT (Some "HSE,MAINT") None [] ]
      ["fumes_sensor_status"] 0 ].

(** ** A run of the welding cell in which the PLC heartbeat stops *)

(** [sample_signal_values] of [tests/conftest.py]. *)
Definition sample_signal_values : list (string * pyval) :=
  [ ("fanuc_tcp_speed", PFloat 250);
    ("fanuc_mode", PStr "AUTO");
    ("fanuc_servo_on", PBool true);
    ("plc_heartbeat", PInt 12345);
    ("scanner_zone_status", PInt 0);
    ("scanner_min_distance", PInt 2500);
    ("estop_status", PInt 0);
    ("arc_on", PBool true);
    ("fumes_concentration", PFloat (35 # 10));
    ("fumes_vlep_ratio", PFloat (7 # 10));
    ("vision_presence", PBool false);
    ("vision_min_distance", PInt 3000);
    ("vision_confidence", PFloat (92 # 100));
    ("robosafe_risk_score", PFloat 25) ].

(** The same values without the heartbeat. *)
Definition values_without_heartbeat : list (string * pyval) :=
  List.filter (fun item => negb (String.eqb (fst item) "plc_heartbeat"))
              sample_signal_values.

(** The store: the welding-cell signals registered at 0 s, all sample values
    written at 1 s, every value but the heartbeat written again at 1.55 s,
    one watchdog pass at 1.6 s (the heartbeat is then 600 ms old, its
    timeout is 500 ms). *)
Definition store_before_loss : Signals.SignalManager :=
  snd (Signals.update_signals_batch 1000000 sample_signal_values Signals.GOOD
         (Signals.register_signals 0 Signals.get_welding_cell_signals
            Signals.new_manager)).

Definition store_after_loss : Signals.SignalManager :=
  Signals.check_timeouts 1600000
    (snd (Signals.update_signals_batch 1550000 values_without_heartbeat
            Signals.GOOD store_before_loss)).

(** The machine, brought to [NORMAL] at 0.5 s. *)
Definition machine_in_normal : SafetyStateMachine :=
  machine (request_normal 500000 "all_clear" (init_machine 0 INIT 1000)).

(** The engine with the welding-cell rules. *)
Definition welding_engine : RuleEngine :=
  register_rules get_welding_cell_rules new_engine.

End Rules.

(** * agents/analysis_agent.py: collision risk *)

Module Analysis.

Inductive RiskLevel : Type :=
  | NONE | LOW | MEDIUM | HIGH | CRITICAL.

(** [RiskScore] without the formatted [factors] strings and the timestamp. *)
Record RiskScore : Type := mkRisk {
  category : string;
  level : RiskLevel;
  score : Q;
  confidence : Q;
}.



(** [_get_signal_value(signal_id, default)] on [_current_signals], kept here
    as the map from signal id to the [value] entry of the stored signal. *)
Definition get_signal_value (cur : gmap string pyval) (signal_id : string)
    (dflt : pyval) : pyval :=
  default dflt (cur !! signal_id).




(** ** Distance risk and global risk *)

(** The thresholds of [AnalysisConfig] used by the distance risk. *)
Record AnalysisConfig : Type := mkAnalysisConfig {
  distance_critical_mm : Q;
  distance_high_mm : Q;
  distance_medium_mm : Q;
  distance_low_mm : Q;
}.

(** [AnalysisConfig()] with its defaults. *)
Definition default_analysis_config : AnalysisConfig :=
  {| distance_critical_mm := 500; distance_high_mm := 800;
     distance_medium_mm := 1200; distance_low_mm := 2000 |}.

(** The level and score [_calculate_distance_risk] gives to the minimal
    distance. *)
Definition distance_band (c : AnalysisConfig) (d : Q) : RiskLevel * Q :=
  if Qle_bool d (distance_critical_mm c) then (CRITICAL, 100%Q)
  else if Qle_bool d (distance_high_mm c) then
    (HIGH, 75 + 25 * (distance_high_mm c - d)
                / (distance_high_mm c - distance_critical_mm c))%Q
  else if Qle_bool d (distance_medium_mm c) then
    (MEDIUM, 50 + 25 * (distance_medium_mm c - d)
                  / (distance_medium_mm c - distance_high_mm c))%Q
  else if Qle_bool d (distance_low_mm c) then
    (LOW, 25 + 25 * (distance_low_mm c - d)
               / (distance_low_mm c - distance_medium_mm c))%Q
  else (NONE, 0%Q).

(** [min(a, b)]: [b] when [b < a], otherwise [a]. *)
Definition py_min (a b : Q) : Q := if Signals.Qltb b a then b else a.

(** [_calculate_distance_risk()]: the score stored under ["distance"];
    [None] when a value read is not a number and a comparison raises. *)
Definition calculate_distance_risk (c : AnalysisConfig)
    (cur : gmap string pyval) : option RiskScore :=
  scanner_dist ← Rules.as_num (get_signal_value cur "scanner_min_distance"
                                                (PInt 10000));
  vision_dist ← Rules.as_num (get_signal_value cur "vision_min_distance"
                                               (PInt 10000));
  let '(lv, sc) := distance_band c (py_min scanner_dist vision_dist) in
  Some {| category := "distance"; level := lv; score := sc;
          confidence := if Signals.Qltb scanner_dist 10000
                        then 9 # 10 else 7 # 10 |}.






End Analysis.

(** * agents/decision_agent.py *)

Module Decision.

Inductive ActionType : Type :=
  | NONE | LOG | ALERT | SLOW_50 | SLOW_25 | STOP | ESTOP.

(** The [IntEnum] value. *)
Definition action_value (a : ActionType) : Z :=
  match a with
  | NONE => 0 | LOG => 1 | ALERT => 2 | SLOW_50 => 3 | SLOW_25 => 4
  | STOP => 5 | ESTOP => 6
  end.

Definition action_name (a : ActionType) : string :=
  match a with
  | NONE => "NONE" | LOG => "LOG" | ALERT => "ALERT" | SLOW_50 => "SLOW_50"
  | SLOW_25 => "SLOW_25" | STOP => "STOP" | ESTOP => "ESTOP"
  end.

Inductive ActionUrgency : Type :=
  | LOW | NORMAL | HIGH | IMMEDIATE.

Record DecisionConfig : Type := mkConfig {
  threshold_alert : Q;
  threshold_slow_50 : Q;
  threshold_slow_25 : Q;
  threshold_stop : Q;
  threshold_estop : Q;
  min_confidence : Q;
  action_cooldown_s : Q;
  auto_execute_enabled : bool;
}.

(** [DecisionConfig()] with its defaults. *)
Definition default_config : DecisionConfig :=
  {| threshold_alert := 25; threshold_slow_50 := 50;
     threshold_slow_25 := 65; threshold_stop := 80; threshold_estop := 95;
     min_confidence := 7 # 10; action_cooldown_s := 2;
     auto_execute_enabled := true |}.

(** [ActionRecommendation] without the formatted [id] and [reason] strings
    and the timestamp. *)
Record ActionRecommendation : Type := mkRecommendation {
  action : ActionType;
  urgency : ActionUrgency;
  risk_category : string;
  risk_score : Q;
  confidence : Q;
  suppression_duration_s : Q;
  requires_ack : bool;
  auto_execute : bool;
}.

(** The [global_risk] dictionary of a [risk_update]: the entries read with
    [.get(key, 0)]. *)
Record GlobalRisk : Type := mkGlobal {
  g_score : option Q;
  g_confidence : option Q;
}.

(** The agent: configuration, [_global_risk] ([None] is the empty
    dictionary), the scores of [_current_risks] in insertion order,
    [_action_history] and the counters. *)
Record DecisionAgent : Type := mkAgent {
  config : DecisionConfig;
  global_risk : option GlobalRisk;
  current_risks : list (string * Q);
  action_history : gmap string Z;
  action_id : nat;
  decisions_made : nat;
  actions_recommended : nat;
}.

(** [self._global_risk.get("score", 0)] and
    [self._global_risk.get("confidence", 0)] *)
Definition read_score (g : GlobalRisk) : Q := default 0%Q (g_score g).
Definition read_confidence (g : GlobalRisk) : Q := default 0%Q (g_confidence g).

Definition Qgeb (a b : Q) : bool := Qle_bool b a.

(** [_determine_action(score)] *)
Definition determine_action (c : DecisionConfig) (sc : Q)
  : ActionType * ActionUrgency :=
  if Qgeb sc (threshold_estop c) then (ESTOP, IMMEDIATE)
  else if Qgeb sc (threshold_stop c) then (STOP, IMMEDIATE)
  else if Qgeb sc (threshold_slow_25 c) then (SLOW_25, HIGH)
  else if Qgeb sc (threshold_slow_50 c) then (SLOW_50, HIGH)
  else if Qgeb sc (threshold_alert c) then (ALERT, NORMAL)
  else (NONE, LOW).

(** [_find_dominant_risk()] *)
Definition find_dominant_risk (risks : list (string * Q)) : string :=
  snd (foldl (fun acc cr =>
                if Signals.Qltb (fst acc) (snd cr) then (snd cr, fst cr)
                else acc)
             (0%Q, "unknown") risks).

(** [_can_auto_execute(action)] *)
Definition can_auto_execute (c : DecisionConfig) (a : ActionType) : bool :=
  if negb (auto_execute_enabled c) then false
  else action_value SLOW_50 <=? action_value a.

(** [_evaluate_and_recommend()]: the recommendation, if any, and the agent
    with its [_action_id] advanced. *)
Definition evaluate_and_recommend (ag : DecisionAgent)
  : option ActionRecommendation * DecisionAgent :=
  let g := default {| g_score := None; g_confidence := None |}
                   (global_risk ag) in
  let sc := read_score g in
  let conf := read_confidence g in
  if Signals.Qltb conf (min_confidence (config ag)) then (None, ag)
  else
    let '(a, u) := determine_action (config ag) sc in
    match a with
    | NONE => (None, ag)
    | _ =>
        let dominant := find_dominant_risk (current_risks ag) in
        (Some {| action := a; urgency := u; risk_category := dominant;
                 risk_score := sc; confidence := conf;
                 suppression_duration_s := action_cooldown_s (config ag);
                 requires_ack := action_value STOP <=? action_value a;
                 auto_execute := can_auto_execute (config ag) a |},
         {| config := config ag; global_risk := global_risk ag;
            current_risks := current_risks ag;
            action_history := action_history ag;
            action_id := S (action_id ag);
            decisions_made := decisions_made ag;
            actions_recommended := actions_recommended ag |})
    end.

(** [_check_cooldown(recommendation)] at time [now] *)
Definition check_cooldown (now : Z) (c : DecisionConfig)
    (r : ActionRecommendation) (h : gmap string Z) : bool * gmap string Z :=
  let key := (action_name (action r) ++ "_" ++ risk_category r)%string in
  match h !! key with
  | Some last_time =>
      if Signals.Qltb (inject_Z (now - last_time) / inject_Z 1000000)
                      (action_cooldown_s c)
      then (false, h)
      else (true, <[key := now]> h)
  | None => (true, <[key := now]> h)
  end.

(** [cycle()] at time [now]: the recommendation sent to the orchestrator,
    if any, and the agent after the cycle. *)
Definition cycle (now : Z) (ag : DecisionAgent)
  : option ActionRecommendation * DecisionAgent :=
  match global_risk ag with
  | None => (None, ag)
  | Some _ =>
      let '(rec, ag1) := evaluate_and_recommend ag in
      match rec with
      | None =>
          (None,
           {| config := config ag1; global_risk := global_risk ag1;
              current_risks := current_risks ag1;
              action_history := action_history ag1;
              action_id := action_id ag1;
              decisions_made := S (decisions_made ag1);
              actions_recommended := actions_recommended ag1 |})
      | Some r =>
          let '(ok, h) := check_cooldown now (config ag1) r (action_history ag1) in
          (if ok then Some r else None,
           {| config := config ag1; global_risk := global_risk ag1;
              current_risks := current_risks ag1;
              action_history := h;
              action_id := action_id ag1;
              decisions_made := S (decisions_made ag1);
              actions_recommended :=
                if ok then S (actions_recommended ag1)
                else actions_recommended ag1 |})
      end
  end.

(** What the agent decided: the action and the urgency of the
    recommendation of [_evaluate_and_recommend], if there is one. *)
Definition decided (ag : DecisionAgent) : option (ActionType * ActionUrgency) :=
  (fun r => (action r, urgency r)) <$> fst (evaluate_and_recommend ag).

End Decision.

(** * agents/orchestrator_agent.py: arbitration *)

Module Orchestrator.

(** A pending recommendation: the entries of the dictionary that the
    arbitration reads.  [urgency] and [risk_score] are read with a default
    and may be absent; [received_at] is written by [_handle_recommendation]
    on every recommendation it queues. *)
Record Recommendation : Type := mkRec {
  rec_id : string;
  action : string;
  urgency : option string;
  risk_score : option Q;
  received_at : Z;
}.

(** [urgency_order.get(r.get("urgency", "LOW"), 4)] *)
Definition urgency_order (r : Recommendation) : Z :=
  let u := default "LOW" (urgency r) in
  if String.eqb u "IMMEDIATE" then 0
  else if String.eqb u "HIGH" then 1
  else if String.eqb u "NORMAL" then 2
  else if String.eqb u "LOW" then 3
  else 4.

(** The sort key [(urgency_order, -risk_score, received_at)]. *)
Definition sort_key (r : Recommendation) : Z * Q * Z :=
  (urgency_order r, (- default 0 (risk_score r))%Q, received_at r).

(** [k1 < k2] on the key tuples: Python compares tuples lexicographically. *)
Definition key_lt (k1 k2 : Z * Q * Z) : bool :=
  let '(u1, s1, t1) := k1 in
  let '(u2, s2, t2) := k2 in
  if negb (u1 =? u2) then u1 <? u2
  else if negb (Qeq_bool s1 s2) then Signals.Qltb s1 s2
  else t1 <? t2.

(** [sorted(xs, key=sort_key)]: Python's sort is stable, as is this
    insertion sort ([x], which comes first, stays before the elements of
    equal key). *)
Fixpoint insert_by_key (x : Recommendation) (l : list Recommendation)
  : list Recommendation :=
  match l with
  | [] => [x]
  | y :: l' =>
      if key_lt (sort_key y) (sort_key x) then y :: insert_by_key x l'
      else x :: y :: l'
  end.

Fixpoint sorted (l : list Recommendation) : list Recommendation :=
  match l with
  | [] => []
  | x :: l' => insert_by_key x (sorted l')
  end.

(** [_arbitrate_recommendations()]: the selected recommendation and the
    pending list after the call. *)
Definition arbitrate_recommendations (pending : list Recommendation)
  : option Recommendation * list Recommendation :=
  match pending with
  | [] => (None, pending)
  | _ => (head (sorted pending), [])
  end.



(** The order of the keys, as a proposition. *)
Definition key_before (k1 k2 : Z * Q * Z) : Prop :=
  let '(u1, s1, t1) := k1 in
  let '(u2, s2, t2) := k2 in
  u1 < u2 \/ (u1 = u2 /\ (s1 < s2)%Q) \/ (u1 = u2 /\ (s1 == s2)%Q /\ t1 < t2).


(** ** Execution and audit *)

Inductive ExecutionStatus : Type :=
  | PENDING | APPROVED | EXECUTING | SUCCESS | FAILED | CANCELLED | TIMEOUT.

Definition ExecutionStatus_eqb (a b : ExecutionStatus) : bool :=
  match a, b with
  | PENDING, PENDING | APPROVED, APPROVED | EXECUTING, EXECUTING
  | SUCCESS, SUCCESS | FAILED, FAILED | CANCELLED, CANCELLED
  | TIMEOUT, TIMEOUT => true
  | _, _ => false
  end.

Definition status_name (st : ExecutionStatus) : string :=
  match st with
  | PENDING => "PENDING" | APPROVED => "APPROVED" | EXECUTING => "EXECUTING"
  | SUCCESS => "SUCCESS" | FAILED => "FAILED" | CANCELLED => "CANCELLED"
  | TIMEOUT => "TIMEOUT"
  end.

(** [ExecutionRecord], without [operator_id], which is copied from the
    recommendation and read by nothing here. *)
Record ExecutionRecord : Type := mkExecution {
  e_id : string;
  recommendation_id : string;
  e_action : string;
  status : ExecutionStatus;
  started_at : Z;
  completed_at : option Z;
  e_result : string;
}.

(** An entry of the audit log: [timestamp], [event_type], [message] and
    [details]; the [agent] entry is the constant id of the orchestrator. *)
Record AuditEntry : Type := mkAudit {
  a_timestamp : Z;
  event_type : string;
  message : string;
  details : list (string * pyval);
}.

(** What awaiting an executor gives: the truth value it returns, or the
    exception it raises, with its text. *)
Inductive Executed : Type :=
  | Returns (success : bool)
  | Raises (text : string).

(** The orchestrator: [_pending_recommendations], [_active_executions] (a
    dictionary, kept in insertion order), [_audit_log] and its bound,
    [_action_executors], the two counters, the [current_action] and
    [last_action_time] entries of [_system_state], and
    [config.action_timeout_s].  The messages it broadcasts are not kept. *)
Record OrchestratorAgent : Type := mkOrchestrator {
  pending_recommendations : list Recommendation;
  active_executions : list (string * ExecutionRecord);
  audit_log : list AuditEntry;
  max_audit_entries : Z;
  action_executors : gmap string (Recommendation -> Executed);
  actions_executed : nat;
  actions_failed : nat;
  current_action : option string;
  last_action_time : option Z;
  action_timeout_s : Q;
}.

(** [d[key] = value] on a dictionary kept as a list in insertion order. *)
Fixpoint dict_set {V} (key : string) (v : V) (d : list (string * V))
  : list (string * V) :=
  match d with
  | [] => [(key, v)]
  | (k, x) :: rest =>
      if String.eqb k key then (k, v) :: rest
      else (k, x) :: dict_set key v rest
  end.

(** [d.get(key)] on such a dictionary. *)
Fixpoint dict_get {V} (key : string) (d : list (string * V)) : option V :=
  match d with
  | [] => None
  | (k, x) :: rest => if String.eqb k key then Some x else dict_get key rest
  end.

(** [_log_audit(event_type, message, details)] at time [now] *)
Definition log_audit (now : Z) (et msg : string)
    (det : list (string * pyval)) (o : OrchestratorAgent)
  : OrchestratorAgent :=
  let entry := {| a_timestamp := now; event_type := et; message := msg;
                  details := det |} in
  let l := audit_log o ++ [entry] in
  {| pending_recommendations := pending_recommendations o;
     active_executions := active_executions o;
     audit_log := if (max_audit_entries o <? Z.of_nat (length l))
                  then StateMachine.slice_from_neg (max_audit_entries o) l
                  else l;
     max_audit_entries := max_audit_entries o;
     action_executors := action_executors o;
     actions_executed := actions_executed o;
     actions_failed := actions_failed o;
     current_action := current_action o;
     last_action_time := last_action_time o;
     action_timeout_s := action_timeout_s o |}.

(** [get_audit_log(limit, event_type)]: [event_type] filters when it is a
    non-empty string; then [entries[-limit:]]. *)
Definition get_audit_log (limit : Z) (et : option string)
    (o : OrchestratorAgent) : list AuditEntry :=
  let entries :=
    match et with
    | Some t =>
        if String.eqb t "" then audit_log o
        else List.filter (fun e => String.eqb (event_type e) t) (audit_log o)
    | None => audit_log o
    end in
  StateMachine.slice_from_neg limit entries.

(** [_handle_recommendation(message)] at time [now]: the payload, stamped
    with its time of reception, joins the pending list. *)
Definition handle_recommendation (now : Z) (r : Recommendation)
    (o : OrchestratorAgent) : OrchestratorAgent :=
  {| pending_recommendations :=
       pending_recommendations o
       ++ [{| rec_id := rec_id r; action := action r; urgency := urgency r;
              risk_score := risk_score r; received_at := now |}];
     active_executions := active_executions o;
     audit_log := audit_log o;
     max_audit_entries := max_audit_entries o;
     action_executors := action_executors o;
     actions_executed := actions_executed o;
     actions_failed := actions_failed o;
     current_action := current_action o;
     last_action_time := last_action_time o;
     action_timeout_s := action_timeout_s o |}.

(** The status, the result text and the increments of [_actions_executed]
    and [_actions_failed] that [_execute_action] derives from the executor
    registered for the action, if any. *)
Definition execution_outcome (o : OrchestratorAgent) (r : Recommendation)
  : ExecutionStatus * string * nat * nat :=
  match action_executors o !! action r with
  | Some executor =>
      match executor r with
      | Returns true => (SUCCESS, "Action executed successfully", 1%nat, 0%nat)
      | Returns false => (FAILED, "Execution failed", 1%nat, 0%nat)
      | Raises text => (FAILED, text, 0%nat, 1%nat)
      end
  | None =>
      (SUCCESS, ("Action " ++ action r ++ " simulated (no executor)")%string,
       0%nat, 0%nat)
  end.

(** [_execute_action(recommendation)]: started at [t0], completed at [t1],
    with [exec_id] the identifier drawn for the execution. *)
Definition execute_action (t0 t1 : Z) (exec_id : string)
    (r : Recommendation) (o : OrchestratorAgent) : OrchestratorAgent :=
  let '(st, res, ex, fl) := execution_outcome o r in
  let record := {| e_id := exec_id; recommendation_id := rec_id r;
                   e_action := action r; status := st; started_at := t0;
                   completed_at := Some t1; e_result := res |} in
  let o1 :=
    {| pending_recommendations := pending_recommendations o;
       active_executions := dict_set exec_id record (active_executions o);
       audit_log := audit_log o;
       max_audit_entries := max_audit_entries o;
       action_executors := action_executors o;
       actions_executed := (actions_executed o + ex)%nat;
       actions_failed := (actions_failed o + fl)%nat;
       current_action := current_action o;
       last_action_time := last_action_time o;
       action_timeout_s := action_timeout_s o |} in
  let o2 :=
    log_audit t1 "action_executed"
      ("Action " ++ action r ++ ": " ++ status_name st)%string
      [ ("exec_id", PStr exec_id); ("recommendation_id", PStr (rec_id r));
        ("action", PStr (action r)); ("status", PStr (status_name st));
        ("duration_ms", PFloat (inject_Z (t1 - t0) / inject_Z 1000)) ] o1 in
  {| pending_recommendations := pending_recommendations o2;
     active_executions := active_executions o2;
     audit_log := audit_log o2;
     max_audit_entries := max_audit_entries o2;
     action_executors := action_executors o2;
     actions_executed := actions_executed o2;
     actions_failed := actions_failed o2;
     current_action := Some (action r);
     last_action_time := Some t1;
     action_timeout_s := action_timeout_s o2 |}.

(** The first loop of [_check_active_executions] on one record: an
    execution still [EXECUTING] after the timeout becomes [TIMEOUT]. *)
Definition expire_execution (now : Z) (timeout_s : Q) (e : ExecutionRecord)
  : ExecutionRecord * bool :=
  if ExecutionStatus_eqb (status e) EXECUTING
     && Signals.Qltb timeout_s (inject_Z (now - started_at e)
                                / inject_Z 1000000)
  then ({| e_id := e_id e; recommendation_id := recommendation_id e;
           e_action := e_action e; status := TIMEOUT;
           started_at := started_at e; completed_at := Some now;
           e_result := "Execution timed out" |}, true)
  else (e, false).

(** One iteration of the first loop of [_check_active_executions]: the
    record is expired if need be, with an audit entry, and takes its place
    in the dictionary. *)
Definition sweep_step (now : Z) (timeout_s : Q)
    (acc : OrchestratorAgent * list (string * ExecutionRecord))
    (item : string * ExecutionRecord)
  : OrchestratorAgent * list (string * ExecutionRecord) :=
  let r := expire_execution now timeout_s (snd item) in
  (if snd r
   then log_audit now "execution_timeout"
          ("Action " ++ e_action (snd item) ++ " timed out")%string
          [("exec_id", PStr (fst item))] (fst acc)
   else fst acc,
   snd acc ++ [(fst item, fst r)]).

(** [_check_active_executions()] at time [now]: the sweep, one audit entry
    per execution timed out, then the clean-up of the executions completed
    more than five minutes ago. *)
Definition check_active_executions (now : Z) (o : OrchestratorAgent)
  : OrchestratorAgent :=
  let swept :=
    foldl (sweep_step now (action_timeout_s o)) (o, [])
          (active_executions o) in
  let o1 := fst swept in
  let cutoff := now - 300000000 in
  {| pending_recommendations := pending_recommendations o1;
     active_executions :=
       List.filter (fun item =>
                      match completed_at (snd item) with
                      | None => true
                      | Some t => cutoff <? t
                      end) (snd swept);
     audit_log := audit_log o1;
     max_audit_entries := max_audit_entries o1;
     action_executors := action_executors o1;
     actions_executed := actions_executed o1;
     actions_failed := actions_failed o1;
     current_action := current_action o1;
     last_action_time := last_action_time o1;
     action_timeout_s := action_timeout_s o1 |}.

(** The first steps of [cycle()]: when recommendations are pending, the
    arbitration and the execution of the winner (started at [t0], completed
    at [t1], under the identifier [exec_id]). *)
Definition serve_pending (t0 t1 : Z) (exec_id : string)
    (o : OrchestratorAgent) : OrchestratorAgent :=
  match pending_recommendations o with
  | [] => o
  | _ =>
      let arbitrated :=
        arbitrate_recommendations (pending_recommendations o) in
      let o' :=
        {| pending_recommendations := snd arbitrated;
           active_executions := active_executions o;
           audit_log := audit_log o;
           max_audit_entries := max_audit_entries o;
           action_executors := action_executors o;
           actions_executed := actions_executed o;
           actions_failed := actions_failed o;
           current_action := current_action o;
           last_action_time := last_action_time o;
           action_timeout_s := action_timeout_s o |} in
      match fst arbitrated with
      | Some r => execute_action t0 t1 exec_id r o'
      | None => o'
      end
  end.

(** [cycle()]: the pending recommendations are served, then the executions
    are swept at [t2]. *)
Definition cycle (t0 t1 t2 : Z) (exec_id : string) (o : OrchestratorAgent)
  : OrchestratorAgent :=
  check_active_executions t2 (serve_pending t0 t1 exec_id o).


(** The recommendations whose key is neither before nor after [k]. *)
Definition same_key (k : Z * Q * Z) (r : Recommendation) : bool :=
  negb (key_lt (sort_key r) k) && negb (key_lt k (sort_key r)).

(** No element of the list has a key before the key of an earlier element. *)
Fixpoint ordered (l : list Recommendation) : Prop :=
  match l with
  | [] => True
  | x :: l' =>
      (forall y, In y l' -> key_lt (sort_key y) (sort_key x) = false)
      /\ ordered l'
  end.

End Orchestrator.

(** * agents/base_agent.py: the inbox *)

Module Bus.

Inductive MessagePriority : Type :=
  | LOW | NORMAL | HIGH | CRITICAL.

(** [AgentMessage] *)
Record AgentMessage : Type := mkMessage {
  m_id : string;
  source : string;
  target : string;
  m_type : string;
  priority : MessagePriority;
  payload : list (string * pyval);
  timestamp : Z;
  requires_ack : bool;
  ttl_seconds : Q;
}.

(** [AgentMessage.is_expired] at time [now] *)
Definition is_expired (now : Z) (msg : AgentMessage) : bool :=
  Signals.Qltb (ttl_seconds msg)
               (inject_Z (now - timestamp msg) / inject_Z 1000000).

(** The part of [BaseAgent] that the inbox uses: the queue, oldest message
    first, [config.max_queue_size], and two of the metrics. *)
Record Inbox : Type := mkInbox {
  queue : list AgentMessage;
  max_queue_size : Z;
  messages_received : nat;
  messages_dropped : nat;
}.

(** [asyncio.Queue.full()]: a queue whose [maxsize] is not positive is never
    full. *)
Definition full (b : Inbox) : bool :=
  if max_queue_size b <=? 0 then false
  else max_queue_size b <=? Z.of_nat (length (queue b)).

(** [receive(message)] *)
Definition receive (msg : AgentMessage) (b : Inbox) : bool * Inbox :=
  if full b
  then (false,
        {| queue := queue b; max_queue_size := max_queue_size b;
           messages_received := messages_received b;
           messages_dropped := S (messages_dropped b) |})
  else (true,
        {| queue := queue b ++ [msg]; max_queue_size := max_queue_size b;
           messages_received := messages_received b;
           messages_dropped := messages_dropped b |}).

(** The loop of [_process_inbox] at time [now], [processed] messages having
    been handled already: the messages handed to [handle_message], in order,
    the number of expired messages dropped, and what is left in the queue.
    [handle_message] is taken to return normally. *)
Fixpoint drain (now : Z) (processed : nat) (q : list AgentMessage)
  : list AgentMessage * nat * list AgentMessage :=
  match q with
  | [] => ([], 0%nat, [])
  | msg :: rest =>
      if (processed <? 10)%nat then
        if is_expired now msg then
          let '(handled, dropped, rest_q) := drain now processed rest in
          (handled, S dropped, rest_q)
        else
          let '(handled, dropped, rest_q) := drain now (S processed) rest in
          (msg :: handled, dropped, rest_q)
      else ([], 0%nat, q)
  end.

(** [_process_inbox()] at time [now]: the messages handled and the inbox
    afterwards. *)
Definition process_inbox (now : Z) (b : Inbox) : list AgentMessage * Inbox :=
  let '(handled, dropped, rest_q) := drain now 0 (queue b) in
  (handled,
   {| queue := rest_q; max_queue_size := max_queue_size b;
      messages_received := (messages_received b + length handled)%nat;
      messages_dropped := (messages_dropped b + dropped)%nat |}).

End Bus.

(** * Properties of the state machine *)

Section StateMachineFacts.
Import StateMachine.

Lemma SafetyState_eqb_eq a b : SafetyState_eqb a b = true <-> a = b.
Proof. destruct a, b; simpl; split; congruence. Qed.

Lemma SafetyState_eqb_refl a : SafetyState_eqb a a = true.
Proof. by destruct a. Qed.

Lemma SafetyState_eqb_neq a b : SafetyState_eqb a b = false <-> a <> b.
Proof. destruct a, b; simpl; split; congruence. Qed.

Lemma state_in_In x xs : state_in x xs = true <-> In x xs.
Proof.
  unfold state_in. rewrite existsb_exists. split.
  - intros (y & Hy & E). apply SafetyState_eqb_eq in E. by subst.
  - intros H. exists x. split; [done | apply SafetyState_eqb_refl].
Qed.

Lemma state_in_false x xs : ~ In x xs -> state_in x xs = false.
Proof.
  intros H. destruct (state_in x xs) eqn:E; [|done].
  apply state_in_In in E. contradiction.
Qed.

(** No state is listed among its own targets. *)
Lemma no_self_transition s : ~ In s (VALID_TRANSITIONS s).
Proof. destruct s; simpl; intuition discriminate. Qed.

(** C4. [transition_to] towards the current state returns [True] and leaves
    the machine as it is (no record, same state, same previous state, same
    timer, same history); with [force=False] towards another state that is
    not in the table entry of the current state it returns [False] and
    leaves the machine as it is. *)
Theorem transition_to_same_or_illegal now target trig rid dat force sm :
  (target = current_state sm ->
   transition_to now target trig rid dat force sm = mkOutcome true sm None)
  /\
  (target <> current_state sm ->
   ~ In target (VALID_TRANSITIONS (current_state sm)) ->
   transition_to now target trig rid dat false sm = mkOutcome false sm None).
Proof.
  split.
  - intros ->. unfold transition_to. by rewrite SafetyState_eqb_refl.
  - intros Hne Hnot. unfold transition_to, can_transition_to.
    assert (E : SafetyState_eqb (current_state sm) target = false)
      by (apply SafetyState_eqb_neq; congruence).
    rewrite E. simpl. by rewrite (state_in_false _ _ Hnot).
Qed.

Lemma transition_to_same_or_illegal_witness :
  let sm := init_machine 0 INIT 1000 in
  transition_to 5 INIT "same" None [] true sm = mkOutcome true sm None /\
  transition_to 5 RECOVERY "invalid" None [] false sm
  = mkOutcome false sm None.
Proof.
  intros sm. split.
  - apply (proj1 (transition_to_same_or_illegal 5 INIT "same" None [] true sm)).
    reflexivity.
  - apply (proj2 (transition_to_same_or_illegal 5 RECOVERY "invalid" None []
                    false sm)).
    + discriminate.
    + simpl. intuition discriminate.
Defined.

(** *** Maximal speed along legal transitions *)

Lemma is_speed_raising_spec s s' :
  is_speed_raising s s' = true <-> In (s, s') speed_raising.
Proof.
  unfold is_speed_raising. rewrite existsb_exists. split.
  - intros ([a b] & Hin & E). simpl in E.
    apply andb_true_iff in E as [E1 E2].
    apply SafetyState_eqb_eq in E1, E2. by subst.
  - intros Hin. exists (s, s'). split; [done|]. simpl.
    by rewrite !SafetyState_eqb_refl.
Qed.

(** The table has legal transitions off [RECOVERY] that raise the maximal
    speed, for instance [INIT -> NORMAL], which [transition_to] accepts
    without [force]. *)
Lemma speed_raised_by_init_to_normal :
  In NORMAL (VALID_TRANSITIONS INIT) /\
  INIT <> RECOVERY /\ NORMAL <> RECOVERY /\
  ~ (max_speed_percent NORMAL <= max_speed_percent INIT) /\
  let o := transition_to 1 NORMAL "init_complete" None [] false
             (init_machine 0 INIT 1000) in
  result o = true /\ current_state (machine o) = NORMAL.
Proof.
  repeat split; simpl; try discriminate; try lia. by left.
Qed.

Lemma lowering_step s s' :
  In s' (VALID_TRANSITIONS s) -> s <> RECOVERY -> s' <> RECOVERY ->
  (max_speed_percent s' <= max_speed_percent s
   <-> is_speed_raising s s' = false).
Proof.
  intros Hin Hs Hs'.
  destruct s, s'; try congruence;
    try (exfalso; simpl in Hin; intuition discriminate);
    unfold is_speed_raising; simpl;
    (split; intros H; first [reflexivity | discriminate H | lia]).
Qed.

(** C2, as the table has it.  A legal transition between two states other
    than [RECOVERY] keeps or lowers the maximal speed exactly when it is not
    one of the ten transitions of [speed_raising]; along a path of legal
    transitions that avoids [RECOVERY] and those ten, no state reached is
    faster than the state the path starts from. *)
Theorem max_speed_monotone_off_raising :
  (forall s s',
     In s' (VALID_TRANSITIONS s) -> s <> RECOVERY -> s' <> RECOVERY ->
     (max_speed_percent s' <= max_speed_percent s
      <-> ~ In (s, s') speed_raising))
  /\
  (forall path s,
     lowering_path s path ->
     forall s', In s' path -> max_speed_percent s' <= max_speed_percent s).
Proof.
  split.
  - intros s s' Hin Hs Hs'. rewrite (lowering_step s s' Hin Hs Hs').
    rewrite <- is_speed_raising_spec.
    destruct (is_speed_raising s s'); split; congruence.
  - induction path as [|x rest IH]; intros s Hp s' Hs'; [destruct Hs'|].
    destruct Hp as (Hin & Hs & Hx & Hr & Hrest).
    assert (Hx_le : max_speed_percent x <= max_speed_percent s)
      by (by apply lowering_step).
    destruct Hs' as [-> | Hs']; [done|].
    specialize (IH x Hrest s' Hs'). lia.
Qed.

Lemma max_speed_monotone_off_raising_witness :
  (max_speed_percent SLOW_25 <= max_speed_percent NORMAL
   <-> ~ In (NORMAL, SLOW_25) speed_raising) /\
  max_speed_percent ESTOP <= max_speed_percent NORMAL.
Proof.
  split.
  - apply (proj1 max_speed_monotone_off_raising NORMAL SLOW_25).
    + simpl. tauto.
    + discriminate.
    + discriminate.
  - apply (proj2 max_speed_monotone_off_raising [SLOW_50; STOP; ESTOP] NORMAL).
    + simpl. repeat split; try discriminate; tauto.
    + simpl. tauto.
Defined.

(** *** Records appended to the history *)

Lemma In_drop {A} (x : A) n l : In x (drop n l) -> In x l.
Proof.
  revert l. induction n as [|n IH]; intros [|y l]; simpl; auto.
Qed.

Lemma In_slice_from_neg {A} (x : A) m l : In x (slice_from_neg m l) -> In x l.
Proof. unfold slice_from_neg. apply In_drop. Qed.

Lemma transition_to_emitted now target trig rid dat force sm t :
  emitted (transition_to now target trig rid dat force sm) = Some t ->
  from_state t = current_state sm /\ to_state t = target /\
  (force = false -> legal t).
Proof.
  unfold transition_to.
  destruct (SafetyState_eqb (current_state sm) target) eqn:E; [discriminate|].
  destruct (negb force && negb (can_transition_to sm target)) eqn:G;
    [discriminate|].
  simpl. intros [= <-]. simpl. repeat split. intros ->. simpl in G.
  apply negb_false_iff in G. unfold can_transition_to in G. rewrite E in G.
  unfold legal. simpl. by apply state_in_In.
Qed.

Lemma transition_to_history now target trig rid dat force sm t :
  In t (history (machine (transition_to now target trig rid dat force sm))) ->
  In t (history sm)
  \/ emitted (transition_to now target trig rid dat force sm) = Some t.
Proof.
  unfold transition_to.
  destruct (SafetyState_eqb (current_state sm) target); [by left|].
  destruct (negb force && negb (can_transition_to sm target)); [by left|].
  simpl. intros H.
  assert (H' : In t (history sm ++ [{| from_state := current_state sm;
               to_state := target; timestamp := now; trigger := trig;
               rule_id := rid; data := dat |}])).
  { destruct (max_history sm <? _); [by apply In_slice_from_neg in H | done]. }
  apply in_app_or in H' as [H' | [<- | []]]; auto.
Qed.

Lemma perform_emitted now c sm t :
  emitted (perform now c sm) = Some t ->
  legal t \/ by_estop_or_fallback c t \/ by_direct_force c t.
Proof.
  destruct c as [target trig rid dat force| | | | | |]; simpl;
    unfold request_estop, request_stop, request_slow, request_recovery,
           request_normal, enter_fallback;
    intros H; apply transition_to_emitted in H as (Hf & Ht & Hl); auto.
  destruct force; auto.
Qed.

Lemma perform_history now c sm t :
  In t (history (machine (perform now c sm))) ->
  In t (history sm) \/ emitted (perform now c sm) = Some t.
Proof.
  destruct c; simpl;
    unfold request_estop, request_stop, request_slow, request_recovery,
           request_normal, enter_fallback;
    apply transition_to_history.
Qed.

Lemma run_cons now c rest sm :
  run ((now, c) :: rest) sm
  = (fst (run rest (machine (perform now c sm))),
     match emitted (perform now c sm) with
     | Some t => (c, t) :: snd (run rest (machine (perform now c sm)))
     | None => snd (run rest (machine (perform now c sm)))
     end).
Proof. simpl. by destruct (run rest (machine (perform now c sm))). Qed.

Lemma run_log_origin cs : forall sm c t,
  In (c, t) (snd (run cs sm)) ->
  In c (map snd cs) /\
  (legal t \/ by_estop_or_fallback c t \/ by_direct_force c t).
Proof.
  induction cs as [|[now c0] rest IH]; intros sm c t; [intros []|].
  rewrite run_cons. simpl.
  destruct (emitted (perform now c0 sm)) as [t0|] eqn:E.
  - intros [[= <- <-] | H].
    + split; [by left | by eapply perform_emitted].
    + destruct (IH _ _ _ H). split; [by right | done].
  - intros H. destruct (IH _ _ _ H). split; [by right | done].
Qed.

Lemma run_history cs : forall sm t,
  In t (history (fst (run cs sm))) ->
  In t (history sm) \/ exists c, In (c, t) (snd (run cs sm)).
Proof.
  induction cs as [|[now c0] rest IH]; intros sm t; [by left|].
  rewrite run_cons. simpl. intros H.
  destruct (IH _ _ H) as [H1 | [c H1]].
  - destruct (perform_history _ _ _ _ H1) as [H2 | H2]; [by left|].
    right. exists c0. rewrite H2. by left.
  - right. exists c. destruct (emitted (perform now c0 sm)); [by right|done].
Qed.

(** The claim of C3 read over every sequence of calls, forced direct calls
    included, fails: [transition_to(RECOVERY, force=True)] on a fresh machine
    appends [INIT -> RECOVERY], which is not in the table and was issued by
    neither [request_estop] nor [enter_fallback]. *)
Lemma forced_direct_call_escapes_table :
  let cs := [(1, CallTransitionTo RECOVERY "" None [] true)] in
  let sm := init_machine 0 INIT 1000 in
  ~ (forall c t, In (c, t) (snd (run cs sm)) ->
                 legal t \/ by_estop_or_fallback c t).
Proof.
  intros cs sm H.
  destruct (H (CallTransitionTo RECOVERY "" None [] true)
              {| from_state := INIT; to_state := RECOVERY; timestamp := 1;
                 trigger := ""; rule_id := None; data := [] |}) as [L | []].
  - simpl. by left.
  - unfold legal in L. simpl in L. intuition discriminate.
Qed.

(** C3, as the code has it.  Every record appended by a sequence of calls is
    in the table entry of its source, or was appended by [request_estop]
    (towards [ESTOP]), by [enter_fallback] (towards [FALLBACK]) or by a
    direct [transition_to(.., force=True)]; when the direct calls of
    [transition_to] all pass [force=False] only the first three remain; and
    the history after the calls holds nothing but records of the history
    before and records appended by the calls. *)
Theorem appended_records_legal_or_forced cs sm :
  (forall c t, In (c, t) (snd (run cs sm)) ->
     legal t \/ by_estop_or_fallback c t \/ by_direct_force c t)
  /\
  (forallb (fun nc => unforced (snd nc)) cs = true ->
   forall c t, In (c, t) (snd (run cs sm)) ->
     legal t \/ by_estop_or_fallback c t)
  /\
  (forall t, In t (history (fst (run cs sm))) ->
     In t (history sm) \/ exists c, In (c, t) (snd (run cs sm))).
Proof.
  split; [|split].
  - intros c t H. by destruct (run_log_origin _ _ _ _ H).
  - intros Hu c t H. destruct (run_log_origin _ _ _ _ H) as [Hc Hor].
    destruct Hor as [L | [F | D]]; auto.
    apply in_map_iff in Hc as ([now c'] & Ec & Hin). simpl in Ec. subst c'.
    rewrite forallb_forall in Hu. specialize (Hu _ Hin). simpl in Hu.
    destruct c; simpl in D; try contradiction.
    destruct force; [discriminate | contradiction].
  - apply run_history.
Qed.

Lemma appended_records_legal_or_forced_witness :
  let cs := [ (1, CallRequestNormal "all_clear");
              (2, CallRequestEstop "emergency" None);
              (3, CallRequestNormal "try");
              (4, CallEnterFallback "ia_comm_lost") ] in
  let c := CallEnterFallback "ia_comm_lost" in
  let t := {| from_state := ESTOP; to_state := FALLBACK; timestamp := 4;
              trigger := "ia_comm_lost"; rule_id := None; data := [] |} in
  In (c, t) (snd (run cs (init_machine 0 INIT 1000))) /\
  (legal t \/ by_estop_or_fallback c t).
Proof.
  intros cs c t.
  assert (Hin : In (c, t) (snd (run cs (init_machine 0 INIT 1000))))
    by (simpl; tauto).
  split; [exact Hin|].
  exact (proj1 (proj2 (appended_records_legal_or_forced cs
                         (init_machine 0 INIT 1000))) eq_refl c t Hin).
Defined.

(** *** The bounded history *)

Lemma length_slice_from_neg {A} (m : Z) (l : list A) :
  0 < m -> m < Z.of_nat (length l) ->
  Z.of_nat (length (slice_from_neg m l)) = m.
Proof.
  intros Hm Hl. unfold slice_from_neg.
  assert (E : (- m <? 0) = true) by (apply Z.ltb_lt; lia).
  rewrite E, length_drop. lia.
Qed.

Lemma last_slice_from_neg {A} (m : Z) (l : list A) :
  0 < m -> last (slice_from_neg m l) = last l.
Proof.
  intros Hm. unfold slice_from_neg.
  assert (E : (- m <? 0) = true) by (apply Z.ltb_lt; lia).
  rewrite E.
  destruct (decide (Z.of_nat (length l) <= m)) as [Hle | Hgt].
  - replace (Z.to_nat (Z.max 0 (Z.of_nat (length l) - m))) with 0%nat by lia.
    done.
  - set (n := Z.to_nat (Z.max 0 (Z.of_nat (length l) - m))).
    assert (Hn : (n < length l)%nat) by lia.
    rewrite <- (take_drop n l) at 2.
    rewrite last_app.
    destruct (last (drop n l)) eqn:E'; [done|].
    apply last_None in E'.
    assert (length (drop n l) = 0%nat) by (by rewrite E').
    rewrite length_drop in *. lia.
Qed.

Lemma slice_from_neg_zero {A} (l : list A) : slice_from_neg 0 l = l.
Proof.
  by destruct l.
Qed.

Lemma transition_to_max_history now target trig rid dat force sm :
  max_history (machine (transition_to now target trig rid dat force sm))
  = max_history sm.
Proof.
  unfold transition_to.
  destruct (SafetyState_eqb (current_state sm) target); [done|].
  by destruct (negb force && negb (can_transition_to sm target)).
Qed.

(** The history after a call: untouched when no record is appended, and
    otherwise the old history with the record added, cut by the slice when
    it is longer than [max_history]. *)
Lemma transition_to_history_eq now target trig rid dat force sm :
  history (machine (transition_to now target trig rid dat force sm))
  = match emitted (transition_to now target trig rid dat force sm) with
    | None => history sm
    | Some t =>
        if max_history sm <? Z.of_nat (length (history sm ++ [t]))
        then slice_from_neg (max_history sm) (history sm ++ [t])
        else history sm ++ [t]
    end.
Proof.
  unfold transition_to.
  destruct (SafetyState_eqb (current_state sm) target); [done|].
  by destruct (negb force && negb (can_transition_to sm target)).
Qed.

Lemma perform_is_transition_to now c sm :
  exists target trig rid dat force,
    perform now c sm = transition_to now target trig rid dat force sm.
Proof.
  destruct c; simpl;
    unfold request_estop, request_stop, request_slow, request_recovery,
           request_normal, enter_fallback; eauto 6.
Qed.

Lemma perform_bounded now c sm :
  0 < max_history sm ->
  Z.of_nat (length (history sm)) <= max_history sm ->
  max_history (machine (perform now c sm)) = max_history sm /\
  Z.of_nat (length (history (machine (perform now c sm)))) <= max_history sm /\
  (forall t, emitted (perform now c sm) = Some t ->
             last (history (machine (perform now c sm))) = Some t).
Proof.
  intros Hm Hl.
  destruct (perform_is_transition_to now c sm)
    as (target & trig & rid & dat & force & ->).
  rewrite transition_to_max_history, transition_to_history_eq.
  split; [done|].
  destruct (emitted (transition_to now target trig rid dat force sm)) as [t|].
  - destruct (max_history sm <? Z.of_nat (length (history sm ++ [t]))) eqn:E.
    + apply Z.ltb_lt in E. split.
      * by rewrite length_slice_from_neg.
      * intros t' [= <-]. rewrite last_slice_from_neg by done.
        by rewrite last_snoc.
    + apply Z.ltb_ge in E. split; [done|].
      intros t' [= <-]. by rewrite last_snoc.
  - split; [done | discriminate].
Qed.

(** X1.  With a positive [max_history], a history that fits the bound still
    fits it after any sequence of calls, and right after a call that makes a
    transition the last entry of the history is the record of that
    transition: the oldest entries are the ones evicted. *)
Theorem history_stays_within_max_history cs : forall sm,
  0 < max_history sm ->
  Z.of_nat (length (history sm)) <= max_history sm ->
  Z.of_nat (length (history (fst (run cs sm)))) <= max_history sm /\
  (forall now c t, emitted (perform now c sm) = Some t ->
     last (history (machine (perform now c sm))) = Some t).
Proof.
  induction cs as [|[now c] rest IH]; intros sm Hm Hl.
  - split; [done|]. intros now c t. by apply perform_bounded.
  - split; [|intros now' c' t; by apply perform_bounded].
    rewrite run_cons. cbn [fst].
    destruct (perform_bounded now c sm Hm Hl) as (E & Hl' & _).
    destruct (IH (machine (perform now c sm))) as [H _];
      [by rewrite E | by rewrite E | by rewrite E in H].
Qed.

Lemma history_stays_within_max_history_witness :
  let sm := init_machine 0 INIT 2 in
  let cs := [ (1, CallRequestNormal "init"); (2, CallRequestStop "a" None);
              (3, CallRequestRecovery "r"); (4, CallRequestNormal "n") ] in
  Z.of_nat (length (history (fst (run cs sm)))) <= 2.
Proof.
  intros sm cs.
  apply (proj1 (history_stays_within_max_history cs sm eq_refl
                  ltac:(simpl; lia))).
Defined.

(** X2.  With [max_history = 0] the slice [h[-0:]] is the whole list: the
    history is never cut and holds every record appended, in order. *)
Theorem zero_max_history_keeps_every_record cs : forall sm,
  max_history sm = 0 ->
  history (fst (run cs sm)) = history sm ++ map snd (snd (run cs sm)).
Proof.
  induction cs as [|[now c] rest IH]; intros sm Hm.
  - simpl. by rewrite app_nil_r.
  - rewrite run_cons. cbn [fst snd].
    destruct (perform_is_transition_to now c sm)
      as (target & trig & rid & dat & force & E).
    assert (Hm' : max_history (machine (perform now c sm)) = 0)
      by (by rewrite E, transition_to_max_history).
    rewrite (IH _ Hm').
    assert (Hh := transition_to_history_eq now target trig rid dat force sm).
    rewrite <- E in Hh. rewrite Hh, Hm.
    destruct (emitted (perform now c sm)) as [t|]; [|done].
    assert (L : (0 <? Z.of_nat (length (history sm ++ [t]))) = true).
    { apply Z.ltb_lt. rewrite length_app. simpl. lia. }
    rewrite L, slice_from_neg_zero. cbn [map snd]. by rewrite <- app_assoc.
Qed.

Lemma zero_max_history_keeps_every_record_witness :
  let sm := init_machine 0 INIT 0 in
  let cs := [ (1, CallRequestNormal "init"); (2, CallRequestStop "a" None);
              (3, CallRequestRecovery "r") ] in
  length (history (fst (run cs sm))) = 3%nat.
Proof.
  intros sm cs.
  rewrite (zero_max_history_keeps_every_record cs sm eq_refl). reflexivity.
Defined.

(** X3.  [request_estop] and [enter_fallback] are accepted in every state:
    they return [True] and leave the machine in [ESTOP], respectively
    [FALLBACK]. *)
Theorem forced_requests_always_accepted now trig rid sm :
  result (request_estop now trig rid sm) = true /\
  current_state (machine (request_estop now trig rid sm)) = ESTOP /\
  result (enter_fallback now trig sm) = true /\
  current_state (machine (enter_fallback now trig sm)) = FALLBACK.
Proof.
  unfold request_estop, enter_fallback, transition_to.
  destruct (SafetyState_eqb (current_state sm) ESTOP) eqn:E1;
    destruct (SafetyState_eqb (current_state sm) FALLBACK) eqn:E2;
    cbn; repeat split; try done; by apply SafetyState_eqb_eq.
Qed.

Lemma perform_in_estop now c sm :
  current_state sm = ESTOP -> may_leave_estop c = false ->
  machine (perform now c sm) = sm /\ emitted (perform now c sm) = None.
Proof.
  intros Hs Hc.
  destruct c as [target trig rid dat force| | | pct | | |]; simpl in Hc;
    try discriminate; simpl;
    unfold request_estop, request_stop, request_slow, request_normal,
           transition_to, can_transition_to; rewrite Hs.
  - apply orb_false_iff in Hc as [-> Ht].
    destruct target; try discriminate; done.
  - done.
  - done.
  - by destruct (pct <=? 25).
  - done.
Qed.

(** X4.  An emergency stop is latched: in [ESTOP], calls that neither ask
    for [RECOVERY] nor force the transition ([request_stop], [request_slow],
    [request_normal], [request_estop], unforced [transition_to] to any other
    state) leave the machine exactly as it is and append nothing. *)
Theorem estop_is_left_only_through_recovery cs : forall sm,
  current_state sm = ESTOP ->
  forallb (fun nc => negb (may_leave_estop (snd nc))) cs = true ->
  run cs sm = (sm, []).
Proof.
  induction cs as [|[now c] rest IH]; intros sm Hs Hall; [done|].
  simpl in Hall. apply andb_true_iff in Hall as [Hc Hrest].
  apply negb_true_iff in Hc.
  destruct (perform_in_estop now c sm Hs Hc) as [Em Ee].
  rewrite run_cons, Em, Ee. by rewrite (IH sm Hs Hrest).
Qed.

Lemma estop_is_left_only_through_recovery_witness :
  let sm := machine (request_estop 1 "emergency" None
                       (init_machine 0 NORMAL 1000)) in
  run [ (2, CallRequestNormal "try"); (3, CallRequestSlow 50 "x" None);
        (4, CallTransitionTo WARNING "w" None [] false) ] sm = (sm, []).
Proof.
  intros sm.
  apply (estop_is_left_only_through_recovery
           [ (2, CallRequestNormal "try"); (3, CallRequestSlow 50 "x" None);
             (4, CallTransitionTo WARNING "w" None [] false) ] sm);
    reflexivity.
Defined.

Lemma perform_step now c sm :
  match emitted (perform now c sm) with
  | Some t => from_state t = current_state sm /\
              to_state t <> current_state sm /\
              current_state (machine (perform now c sm)) = to_state t
  | None => current_state (machine (perform now c sm)) = current_state sm
  end.
Proof.
  destruct (perform_is_transition_to now c sm)
    as (target & trig & rid & dat & force & ->).
  unfold transition_to.
  destruct (SafetyState_eqb (current_state sm) target) eqn:E; [done|].
  destruct (negb force && negb (can_transition_to sm target)); [done|].
  cbn. repeat split. apply SafetyState_eqb_neq in E. congruence.
Qed.

(** X5.  The records appended by a sequence of calls form a path: the first
    leaves the state the machine was in, each next one leaves the state the
    previous one entered, none goes from a state to itself, and the machine
    ends in the state the last record enters. *)
Theorem appended_records_form_a_path cs : forall sm,
  chained (current_state sm) (map snd (snd (run cs sm))) /\
  current_state (fst (run cs sm))
  = end_state (current_state sm) (map snd (snd (run cs sm))).
Proof.
  induction cs as [|[now c] rest IH]; intros sm; [done|].
  rewrite run_cons. cbn [fst snd].
  destruct (IH (machine (perform now c sm))) as [Hc He].
  assert (Hp := perform_step now c sm).
  destruct (emitted (perform now c sm)) as [t|].
  - destruct Hp as (Hf & Hne & Ht). cbn [map snd chained].
    rewrite Ht in Hc, He. unfold end_state. cbn [foldl]. by repeat split.
  - rewrite Hp in Hc, He. by split.
Qed.

(** X7.  What the boolean of [transition_to] means.  [True]: the machine is
    in the target state afterwards.  [False]: nothing changed and nothing was
    appended.  Without [force] the boolean is the one [can_transition_to]
    gives beforehand; with [force] it is always [True]. *)
Theorem transition_result_tells_the_state now target trig rid dat force sm :
  let o := transition_to now target trig rid dat force sm in
  (result o = true -> current_state (machine o) = target) /\
  (result o = false -> machine o = sm /\ emitted o = None) /\
  (force = false -> result o = can_transition_to sm target) /\
  (force = true -> result o = true).
Proof.
  unfold transition_to, can_transition_to.
  destruct (SafetyState_eqb (current_state sm) target) eqn:E.
  - cbn. repeat split; try done. intros _. by apply SafetyState_eqb_eq.
  - destruct force; cbn; [by repeat split|].
    destruct (state_in target (VALID_TRANSITIONS (current_state sm)));
      cbn; by repeat split.
Qed.

Lemma transition_result_tells_the_state_witness :
  current_state
    (machine (transition_to 1 NORMAL "init" None [] false
                (init_machine 0 INIT 1000))) = NORMAL.
Proof.
  apply (proj1 (transition_result_tells_the_state 1 NORMAL "init" None []
                  false (init_machine 0 INIT 1000))).
  reflexivity.
Defined.

(** X8.  The operator's reset works from every state: [request_recovery]
    followed by [request_normal] leaves the machine in [NORMAL], whatever
    state it was in. *)
Theorem recovery_then_normal_reaches_normal t1 t2 trig1 trig2 sm :
  current_state
    (machine (request_normal t2 trig2
                (machine (request_recovery t1 trig1 sm)))) = NORMAL.
Proof.
  unfold request_normal, request_recovery, transition_to, can_transition_to.
  destruct (current_state sm) eqn:E; by cbn; rewrite ?E.
Qed.

End StateMachineFacts.

(** * Properties of the signal store *)

Section SignalFacts.
Import Signals.

Lemma Qltb_lt a b : Qltb a b = true <-> (a < b)%Q.
Proof.
  unfold Qltb. rewrite negb_true_iff. split.
  - intros H. apply Qnot_le_lt. intros Hle.
    apply Qle_bool_iff in Hle. congruence.
  - intros H. destruct (Qle_bool b a) eqn:E; [|done].
    apply Qle_bool_iff in E. exfalso. by apply (Qlt_not_le a b).
Qed.

Lemma Qltb_nlt a b : Qltb a b = false <-> ~ (a < b)%Q.
Proof.
  rewrite <- Qltb_lt. destruct (Qltb a b); split; congruence.
Qed.

Lemma SignalQuality_eqb_eq a b : SignalQuality_eqb a b = true <-> a = b.
Proof. destruct a, b; simpl; split; congruence. Qed.

Lemma timeout_due_spec now d s :
  timeout_due now d s = true
  <-> (d_timeout_ms d < age_ms now s)%Q /\ s_quality s <> TIMEOUT.
Proof.
  unfold timeout_due. rewrite andb_true_iff, Qltb_lt, negb_true_iff.
  split; intros [H1 H2]; split; try done.
  - intros E. apply SignalQuality_eqb_eq in E. congruence.
  - destruct (SignalQuality_eqb (s_quality s) TIMEOUT) eqn:E; [|done].
    apply SignalQuality_eqb_eq in E. contradiction.
Qed.

(** *** The loop of [_check_timeouts] *)

Lemma check_item_due now defs acc item :
  check_item now defs acc item
  = if due now defs item
    then (<[fst item := timed_out (fst item) (snd item)]> (fst acc),
          S (snd acc))
    else acc.
Proof.
  destruct item as [i s]. unfold check_item, due. simpl.
  by destruct (defs !! i).
Qed.

Lemma check_fold_absent now defs (l : list (string * Signal)) :
  forall acc k, k ∉ l.*1 ->
    fst (foldl (check_item now defs) acc l) !! k = fst acc !! k.
Proof.
  induction l as [|[i s] l IH]; intros acc k Hk; cbn [foldl]; [done|].
  rewrite fmap_cons in Hk. simpl in Hk.
  apply not_elem_of_cons in Hk as [Hne Hk].
  rewrite (IH _ _ Hk), check_item_due. simpl.
  destruct (due now defs (i, s)); [|done]. simpl.
  by apply lookup_insert_ne.
Qed.

Lemma check_fold_present now defs (l : list (string * Signal)) :
  NoDup l.*1 ->
  forall acc k s, (k, s) ∈ l ->
    fst (foldl (check_item now defs) acc l) !! k
    = if due now defs (k, s) then Some (timed_out k s) else fst acc !! k.
Proof.
  induction l as [|[i x] l IH]; intros Hnd acc k s Hin;
    [by apply elem_of_nil in Hin|].
  rewrite fmap_cons in Hnd. simpl in Hnd.
  apply NoDup_cons in Hnd as [Hi Hnd].
  apply elem_of_cons in Hin as [[= -> ->] | Hin]; cbn [foldl].
  - rewrite (check_fold_absent _ _ _ _ _ Hi), check_item_due. simpl.
    destruct (due now defs (i, x)); [|done]. simpl. apply lookup_insert_eq.
  - rewrite (IH Hnd _ _ _ Hin), check_item_due. simpl.
    destruct (due now defs (k, s)); [done|].
    destruct (due now defs (i, x)); [|done]. simpl.
    apply lookup_insert_ne. intros ->. apply Hi.
    apply list_elem_of_fmap. by exists (k, s).
Qed.

Lemma check_fold_count now defs (l : list (string * Signal)) :
  forall acc,
    snd (foldl (check_item now defs) acc l)
    = (snd acc + length (List.filter (due now defs) l))%nat.
Proof.
  induction l as [|item l IH]; intros acc; cbn [foldl List.filter]; [simpl; lia|].
  rewrite IH, check_item_due.
  destruct (due now defs item); simpl; lia.
Qed.

(** What a watchdog pass leaves under each key. *)
Lemma check_timeouts_lookup now m k :
  signals (check_timeouts now m) !! k
  = (fun s => if due now (definitions m) (k, s) then timed_out k s else s)
      <$> signals m !! k.
Proof.
  unfold check_timeouts. simpl.
  destruct (signals m !! k) as [s|] eqn:E; simpl.
  - rewrite (check_fold_present now (definitions m) (map_to_list (signals m))
               (NoDup_fst_map_to_list _) _ k s).
    + simpl. rewrite E. by destruct (due now (definitions m) (k, s)).
    + by apply elem_of_map_to_list.
  - rewrite check_fold_absent; [done|].
    intros Hin. apply list_elem_of_fmap in Hin as ([k' s] & -> & Hin).
    apply elem_of_map_to_list in Hin. simpl in E. congruence.
Qed.

Lemma check_timeouts_count now m :
  timeout_count (check_timeouts now m)
  = (timeout_count m + due_count now m)%nat.
Proof. unfold check_timeouts, due_count. simpl. apply check_fold_count. Qed.


(** *** Stored observations carry the fail-safe value of their definition *)


Lemma consistent_register now d m :
  consistent m -> consistent (register_signal now d m).
Proof.
  intros Hc k s. unfold register_signal. simpl.
  destruct (decide (d_id d = k)) as [<- | Hne].
  - rewrite !lookup_insert_eq. intros [= <-]. by exists d.
  - rewrite !lookup_insert_ne by done. apply Hc.
Qed.

Lemma consistent_update now i v q ts m :
  consistent m -> consistent (snd (update_signal now i v q ts m)).
Proof.
  intros Hc. unfold update_signal.
  destruct (definitions m !! i) as [d|] eqn:E; [|done].
  intros k s. simpl.
  destruct (decide (i = k)) as [<- | Hne].
  - rewrite lookup_insert_eq. intros [= <-]. by exists d.
  - rewrite lookup_insert_ne by done. apply Hc.
Qed.

Lemma consistent_check now m :
  consistent m -> consistent (check_timeouts now m).
Proof.
  intros Hc k s. rewrite check_timeouts_lookup.
  destruct (signals m !! k) as [s0|] eqn:E; [|done]. simpl.
  destruct (Hc _ _ E) as (d & Hd & Hfs).
  intros [= <-]. exists d. split; [done|].
  by destruct (due now (definitions m) (k, s0)).
Qed.

Lemma consistent_apply_ops ops : forall m,
  consistent m -> consistent (apply_ops ops m).
Proof.
  unfold apply_ops.
  induction ops as [|[now op] ops IH]; intros m Hc; cbn [foldl]; [done|].
  apply IH. destruct op; unfold apply_op; simpl;
    auto using consistent_register, consistent_update, consistent_check.
Qed.

(** *** The watchdog pass (C5) *)




(** *** Registering a definition again (C9) *)

(** The observation written by [register_signal(d)] at [now]. *)
Lemma register_signal_lookup now d m :
  signals (register_signal now d m) !! d_id d
  = Some {| s_id := d_id d; s_name := d_name d; s_source := d_source d;
            s_value := d_fail_safe_value d; s_timestamp := now;
            s_quality := UNKNOWN; s_unit := d_unit d;
            s_min_value := d_min_value d; s_max_value := d_max_value d;
            s_fail_safe_value := d_fail_safe_value d |}.
Proof. unfold register_signal. simpl. apply lookup_insert_eq. Qed.

(** Registering the same definition after an update does not leave the
    stored observation as it was: the update is lost. *)
Lemma register_again_resets_observation :
  let d := plc_heartbeat_definition in
  let m0 := register_signal 0 d new_manager in
  let m1 := snd (update_signal 1000 "plc_heartbeat" (PInt 12345) GOOD None m0) in
  let m2 := register_signal 2000 d m1 in
  definitions m1 !! d_id d = Some d /\
  (s_value <$> get_signal m1 "plc_heartbeat" = Some (PInt 12345) /\
   s_quality <$> get_signal m1 "plc_heartbeat" = Some GOOD /\
   s_timestamp <$> get_signal m1 "plc_heartbeat" = Some 1000) /\
  (s_value <$> get_signal m2 "plc_heartbeat" = Some (PInt 0) /\
   s_quality <$> get_signal m2 "plc_heartbeat" = Some UNKNOWN /\
   s_timestamp <$> get_signal m2 "plc_heartbeat" = Some 2000) /\
  get_signal m2 "plc_heartbeat" <> get_signal m1 "plc_heartbeat".
Proof.
  repeat split; try (vm_compute; reflexivity).
  vm_compute. discriminate.
Qed.

(** C9, as the code has it.  Registering again a definition identical to the
    registered one leaves the definitions, their number, the counters and
    the observations of the other signals as they are, and writes a fresh
    initial observation for the signal: fail-safe value, quality [UNKNOWN],
    timestamp of the call. *)
Theorem register_signal_again now d m :
  definitions m !! d_id d = Some d ->
  let m' := register_signal now d m in
  definitions m' = definitions m /\
  size (definitions m') = size (definitions m) /\
  (exists s',
     signals m' !! d_id d = Some s' /\
     s_value s' = d_fail_safe_value d /\
     s_quality s' = UNKNOWN /\
     s_timestamp s' = now) /\
  (forall k, k <> d_id d -> signals m' !! k = signals m !! k) /\
  update_count m' = update_count m /\
  timeout_count m' = timeout_count m.
Proof.
  intros Hd m'. subst m'.
  assert (E : definitions (register_signal now d m) = definitions m)
    by (unfold register_signal; simpl; by apply insert_id).
  split; [done|]. split; [by rewrite E|]. split.
  - eexists. split; [apply register_signal_lookup|]. by simpl.
  - split; [|done]. intros k Hk. unfold register_signal. simpl.
    by apply lookup_insert_ne.
Qed.

Lemma register_signal_again_witness :
  let d := plc_heartbeat_definition in
  let m := snd (update_signal 1000 "plc_heartbeat" (PInt 12345) GOOD None
                  (register_signal 0 d new_manager)) in
  size (definitions (register_signal 2000 d m)) = size (definitions m).
Proof.
  intros d m.
  apply (proj1 (proj2 (register_signal_again 2000 d m eq_refl))).
Defined.

(** *** Reading a signal that was never updated (C10) *)










(** *** Updates and reads *)

(** X9.  Writing then reading.  An update of a registered signal returns
    [True], counts one update, and a read of that signal then gives the value
    written when the quality written is [GOOD] or [DEGRADED], and the
    fail-safe value of the definition otherwise (the value written when the
    caller turns the substitution off); the other signals are as they were.
    An update of an unregistered id returns [False] and changes nothing. *)
Theorem update_then_read now signal_id v q ts m :
  (forall d dflt,
     definitions m !! signal_id = Some d ->
     let r := update_signal now signal_id v q ts m in
     fst r = true /\
     update_count (snd r) = S (update_count m) /\
     get_signal_value (snd r) signal_id dflt true
     = match q with
       | GOOD | DEGRADED => v
       | _ => d_fail_safe_value d
       end /\
     get_signal_value (snd r) signal_id dflt false = v /\
     (forall k, k <> signal_id ->
                get_signal (snd r) k = get_signal m k))
  /\
  (definitions m !! signal_id = None ->
   update_signal now signal_id v q ts m = (false, m)).
Proof.
  split.
  - intros d dflt Hd. unfold update_signal. rewrite Hd. cbn [fst snd].
    unfold get_signal_value, get_signal. cbn [signals update_count].
    rewrite lookup_insert_eq. unfold is_valid. cbn [s_quality].
    repeat split.
    + by destruct q.
    + by destruct q.
    + intros k Hk. by apply lookup_insert_ne.
  - intros Hd. unfold update_signal. by rewrite Hd.
Qed.

Lemma update_then_read_witness :
  let m := register_signal 0 plc_heartbeat_definition new_manager in
  get_signal_value (snd (update_signal 5 "plc_heartbeat" (PInt 42) BAD None m))
    "plc_heartbeat" (PInt 99) true = PInt 0.
Proof.
  intros m.
  apply (proj1 (update_then_read 5 "plc_heartbeat" (PInt 42) BAD None m)
           plc_heartbeat_definition (PInt 99) eq_refl).
Defined.

(** *** What every reachable store satisfies *)

Lemma well_formed_new : well_formed new_manager.
Proof.
  split; intros k x H; simpl in H; by rewrite lookup_empty in H.
Qed.

Lemma well_formed_register now d m :
  well_formed m -> well_formed (register_signal now d m).
Proof.
  intros [Hs Hd]. unfold register_signal. split; cbn [signals definitions].
  - intros k s. destruct (decide (d_id d = k)) as [<- | Hne].
    + rewrite !lookup_insert_eq. intros [= <-]. by exists d.
    + rewrite !lookup_insert_ne by done. apply Hs.
  - intros k d'. destruct (decide (d_id d = k)) as [<- | Hne].
    + rewrite !lookup_insert_eq. intros [= <-]. split; [done | by eexists].
    + rewrite !lookup_insert_ne by done. apply Hd.
Qed.

Lemma well_formed_update now i v q ts m :
  well_formed m -> well_formed (snd (update_signal now i v q ts m)).
Proof.
  intros [Hs Hd]. unfold update_signal.
  destruct (definitions m !! i) as [d|] eqn:E; [|by split].
  split; cbn [snd signals definitions].
  - intros k s. destruct (decide (i = k)) as [<- | Hne].
    + rewrite lookup_insert_eq. intros [= <-]. by exists d.
    + rewrite lookup_insert_ne by done. apply Hs.
  - intros k d' Hk. destruct (Hd _ _ Hk) as [Hid Hsome]. split; [done|].
    destruct (decide (i = k)) as [<- | Hne].
    + rewrite lookup_insert_eq. by eexists.
    + by rewrite lookup_insert_ne.
Qed.

Lemma well_formed_check now m :
  well_formed m -> well_formed (check_timeouts now m).
Proof.
  intros [Hs Hd]. split.
  - intros k s. rewrite check_timeouts_lookup.
    destruct (signals m !! k) as [s0|] eqn:E; [|done].
    destruct (Hs _ _ E) as (d & Hk & Hid & Hn & Hsrc & Hu & Hfs).
    cbn. intros [= <-]. exists d. split; [done|].
    by destruct (due now (definitions m) (k, s0)).
  - intros k d Hk. destruct (Hd _ _ Hk) as [Hid [s0 Hs0]]. split; [done|].
    rewrite check_timeouts_lookup, Hs0. by eexists.
Qed.

(** X10.  Whatever registrations, updates and watchdog passes a store goes
    through from its creation, the observations and the definitions keep the
    same set of ids, and every observation still carries the id, name,
    source, unit and fail-safe value of its definition. *)
Theorem reachable_store_is_well_formed ops :
  well_formed (apply_ops ops new_manager).
Proof.
  assert (H : forall m, well_formed m -> well_formed (apply_ops ops m)).
  { unfold apply_ops.
    induction ops as [|[now op] ops IH]; intros m Hm; cbn [foldl]; [done|].
    apply IH. destruct op; unfold apply_op; cbn [fst snd];
      auto using well_formed_register, well_formed_update, well_formed_check. }
  apply H, well_formed_new.
Qed.

(** *** More on the watchdog *)

Lemma timed_out_not_due now d k s : timeout_due now d (timed_out k s) = false.
Proof. unfold timeout_due. cbn. apply andb_false_r. Qed.

Lemma check_timeouts_nothing_due now m item :
  item ∈ map_to_list (signals (check_timeouts now m)) ->
  due now (definitions (check_timeouts now m)) item = false.
Proof.
  destruct item as [k s']. intros Hin. apply elem_of_map_to_list in Hin.
  rewrite check_timeouts_lookup in Hin.
  destruct (signals m !! k) as [s|] eqn:E; [|done].
  cbn in Hin. injection Hin as <-.
  change (definitions (check_timeouts now m)) with (definitions m).
  unfold due. cbn [fst snd].
  destruct (definitions m !! k) as [d|]; [|done].
  destruct (timeout_due now d s) eqn:Et; [apply timed_out_not_due | done].
Qed.

Lemma filter_none {A} (f : A -> bool) (l : list A) :
  (forall x, x ∈ l -> f x = false) -> List.filter f l = [].
Proof.
  induction l as [|x l IH]; intros H; [done|]. cbn.
  rewrite (H x) by (by left). apply IH. intros y Hy. apply H. by right.
Qed.

(** X11.  A second watchdog pass at the same instant changes nothing: the
    observations, the definitions and both counters are those the first pass
    left (a signal in timeout is counted once, not once per pass). *)
Theorem watchdog_pass_is_idempotent now m :
  check_timeouts now (check_timeouts now m) = check_timeouts now m.
Proof.
  assert (Hc : due_count now (check_timeouts now m) = 0%nat).
  { unfold due_count. rewrite filter_none; [done|].
    apply check_timeouts_nothing_due. }
  assert (Hs : signals (check_timeouts now (check_timeouts now m))
               = signals (check_timeouts now m)).
  { apply map_eq. intros k. rewrite check_timeouts_lookup.
    destruct (signals (check_timeouts now m) !! k) as [s'|] eqn:E; [|done].
    cbn [fmap option_fmap option_map].
    rewrite check_timeouts_nothing_due; [done|].
    by apply elem_of_map_to_list. }
  assert (Ht := check_timeouts_count now (check_timeouts now m)).
  rewrite Hc, Nat.add_0_r in Ht.
  destruct (check_timeouts now (check_timeouts now m)) as [d1 s1 u1 t1] eqn:E1.
  destruct (check_timeouts now m) as [d2 s2 u2 t2] eqn:E2.
  cbn in Hs, Ht. subst s1 t1.
  assert (d1 = d2 /\ u1 = u2) as [-> ->]; [|done].
  assert (H1 : definitions (check_timeouts now (mkManager d2 s2 u2 t2)) = d2)
    by done.
  assert (H2 : update_count (check_timeouts now (mkManager d2 s2 u2 t2)) = u2)
    by done.
  rewrite E1 in H1, H2. by cbn in H1, H2.
Qed.



(** *** Batch updates *)




End SignalFacts.

(** * Properties of the arbitration *)

Section OrchestratorFacts.
Import Orchestrator.

Lemma key_lt_spec k1 k2 : key_lt k1 k2 = true <-> key_before k1 k2.
Proof.
  destruct k1 as [[u1 s1] t1], k2 as [[u2 s2] t2].
  unfold key_lt, key_before.
  destruct (u1 =? u2) eqn:Eu; simpl.
  - apply Z.eqb_eq in Eu. subst u2.
    destruct (Qeq_bool s1 s2) eqn:Es; simpl.
    + apply Qeq_bool_iff in Es. rewrite Z.ltb_lt. split.
      * intros H. right. right. auto.
      * intros [H | [[_ H] | (_ & _ & H)]]; try lia. lra.
    + apply Qeq_bool_neq in Es. rewrite Qltb_lt. split.
      * intros H. right. left. auto.
      * intros [H | [[_ H] | (_ & H & _)]]; try lia; try done.
  - apply Z.eqb_neq in Eu. rewrite Z.ltb_lt. split.
    + intros H. by left.
    + intros [H | [[H _] | (H & _)]]; try done.
Qed.

Lemma key_lt_asym k1 k2 : key_lt k1 k2 = true -> key_lt k2 k1 = false.
Proof.
  intros H. destruct (key_lt k2 k1) eqn:E; [|done].
  apply key_lt_spec in H, E.
  destruct k1 as [[u1 s1] t1], k2 as [[u2 s2] t2]. simpl in H, E.
  exfalso. destruct H as [H | [[H1 H2] | (H1 & H2 & H3)]];
    destruct E as [E | [[E1 E2] | (E1 & E2 & E3)]]; try lia; lra.
Qed.

(** If [k1] comes before [k2], any third key comes after [k1] or before
    [k2]. *)
Lemma key_lt_between k1 k2 k :
  key_lt k1 k2 = true -> key_lt k1 k = true \/ key_lt k k2 = true.
Proof.
  intros H. rewrite !key_lt_spec. apply key_lt_spec in H.
  destruct k1 as [[u1 s1] t1], k2 as [[u2 s2] t2], k as [[u s] t].
  simpl in *.
  destruct (Z.lt_trichotomy u1 u) as [Hu | [Hu | Hu]];
    [by left; left | | right; left; lia].
  destruct (Z.lt_trichotomy u u2) as [Hu2 | [Hu2 | Hu2]];
    [by right; left | | exfalso; lia].
  assert (Hs12 : (s1 < s2)%Q \/ ((s1 == s2)%Q /\ t1 < t2)).
  { destruct H as [H | [[_ H] | (_ & H & H')]]; [lia | by left | by right]. }
  destruct (Q_dec s1 s) as [[Hs | Hs] | Hs].
  - left. right. left. auto.
  - right. right. left. split; [done|]. destruct Hs12 as [? | [? _]]; lra.
  - destruct (Q_dec s s2) as [[Hs2 | Hs2] | Hs2].
    + right. right. left. auto.
    + exfalso. destruct Hs12 as [? | [? _]]; lra.
    + destruct Hs12 as [? | [_ Ht]]; [exfalso; lra|].
      destruct (Z.lt_trichotomy t1 t) as [Ht1 | [Ht1 | Ht1]].
      * left. right. right. auto.
      * right. right. right. repeat split; try done. lia.
      * right. right. right. repeat split; try done. lia.
Qed.



(** *** The head of the sorted list *)











(** *** Executions *)

Lemma dict_get_set {V} key (v : V) d : dict_get key (dict_set key v d) = Some v.
Proof.
  induction d as [|[k x] d IH]; cbn.
  - by rewrite String.eqb_refl.
  - destruct (String.eqb k key) eqn:E; cbn; by rewrite E.
Qed.

Lemma log_audit_last now et msg det o :
  0 < max_audit_entries o ->
  last (audit_log (log_audit now et msg det o))
  = Some {| a_timestamp := now; event_type := et; message := msg;
            details := det |}.
Proof.
  intros Hm. unfold log_audit. cbn [audit_log].
  destruct (max_audit_entries o <? _);
    [rewrite last_slice_from_neg by done|]; by rewrite last_snoc.
Qed.

(** X24.  An execution is complete when [_execute_action] returns: the
    record filed under the execution id is [SUCCESS] or [FAILED], never
    [EXECUTING], with its start and completion times.  Without an executor
    for the action the execution is reported [SUCCESS] and no counter
    moves; an executor that returns true gives [SUCCESS] and one more action
    executed; one that returns false gives [FAILED] and still counts as an
    action executed, not as a failure; one that raises gives [FAILED] and
    one more failure.  The pending list is not touched, and the last audit
    entry is the ["action_executed"] entry of this execution. *)
Theorem execution_is_complete_and_counted t0 t1 exec_id r o :
  let o' := execute_action t0 t1 exec_id r o in
  (exists e,
     dict_get exec_id (active_executions o') = Some e /\
     (status e = SUCCESS \/ status e = FAILED) /\
     started_at e = t0 /\ completed_at e = Some t1 /\
     recommendation_id e = rec_id r /\
     match action_executors o !! action r with
     | None =>
         status e = SUCCESS /\
         actions_executed o' = actions_executed o /\
         actions_failed o' = actions_failed o
     | Some executor =>
         match executor r with
         | Returns true =>
             status e = SUCCESS /\
             actions_executed o' = S (actions_executed o) /\
             actions_failed o' = actions_failed o
         | Returns false =>
             status e = FAILED /\
             actions_executed o' = S (actions_executed o) /\
             actions_failed o' = actions_failed o
         | Raises _ =>
             status e = FAILED /\
             actions_executed o' = actions_executed o /\
             actions_failed o' = S (actions_failed o)
         end
     end) /\
  pending_recommendations o' = pending_recommendations o /\
  current_action o' = Some (action r) /\
  (0 < max_audit_entries o ->
   event_type <$> last (audit_log o') = Some "action_executed").
Proof.
  unfold execute_action, execution_outcome.
  destruct (action_executors o !! action r) as [executor|];
    [destruct (executor r) as [[|]|text]|];
    cbn [pending_recommendations active_executions actions_executed
         actions_failed current_action audit_log];
    (split; [eexists; split; [apply dict_get_set|]; cbn;
             repeat split; auto; lia|]);
    (split; [done|]); (split; [done|]); intros Hm;
    by rewrite log_audit_last.
Qed.

Lemma execution_is_complete_and_counted_witness :
  let o := {| pending_recommendations := []; active_executions := [];
              audit_log := []; max_audit_entries := 10000;
              action_executors := ∅; actions_executed := 0;
              actions_failed := 0; current_action := None;
              last_action_time := None; action_timeout_s := 5 |} in
  let r := mkRec "REC-00001" "ESTOP" (Some "IMMEDIATE") (Some 97%Q) 10 in
  event_type <$> last (audit_log (execute_action 20 30 "EXEC-1" r o))
  = Some "action_executed".
Proof.
  intros o r.
  apply (proj2 (proj2 (proj2
           (execution_is_complete_and_counted 20 30 "EXEC-1" r o)))).
  reflexivity.
Defined.

(** *** The sweep of the executions *)








(** *** Reading the audit log *)

(** X27.  [get_audit_log(limit)] returns the last [limit] entries, all of
    them when there are fewer, when [limit] is positive; with [limit = 0] it
    returns the whole log, not an empty list.  With an event type, every
    entry returned is of that type. *)
Theorem audit_log_limit limit o :
  (0 < limit ->
     Z.of_nat (length (get_audit_log limit None o))
     = Z.min limit (Z.of_nat (length (audit_log o))) /\
     exists older, audit_log o = older ++ get_audit_log limit None o) /\
  get_audit_log 0 None o = audit_log o /\
  (forall t e, t <> "" -> In e (get_audit_log limit (Some t) o) ->
               event_type e = t /\ In e (audit_log o)).
Proof.
  split; [|split].
  - intros Hl. unfold get_audit_log, StateMachine.slice_from_neg.
    assert (E : (- limit <? 0) = true) by (apply Z.ltb_lt; lia).
    rewrite E. split.
    + rewrite length_drop. lia.
    + exists (take (Z.to_nat (Z.max 0 (Z.of_nat (length (audit_log o)) - limit)))
                   (audit_log o)).
      by rewrite take_drop.
  - unfold get_audit_log. apply slice_from_neg_zero.
  - intros t e Ht Hin. unfold get_audit_log in Hin.
    apply String.eqb_neq in Ht. rewrite Ht in Hin.
    apply In_slice_from_neg in Hin. apply filter_In in Hin as [Hin He].
    split; [by apply String.eqb_eq | done].
Qed.

Lemma audit_log_limit_witness :
  let o := {| pending_recommendations := []; active_executions := [];
              audit_log := [ mkAudit 1 "system_start" "Orchestrator started" [];
                             mkAudit 2 "action_executed" "Action LOG: SUCCESS" [];
                             mkAudit 3 "action_executed" "Action ALERT: SUCCESS" [] ];
              max_audit_entries := 10000;
              action_executors := ∅; actions_executed := 2;
              actions_failed := 0; current_action := Some "ALERT";
              last_action_time := Some 3; action_timeout_s := 5 |} in
  Z.of_nat (length (get_audit_log 2 None o)) = 2.
Proof.
  intros o.
  apply (proj1 (proj1 (audit_log_limit 2 o) ltac:(lia))).
Defined.

(** *** The whole sorted list *)

Lemma insert_by_key_perm x l : Permutation (x :: l) (insert_by_key x l).
Proof.
  induction l as [|y l IH]; cbn [insert_by_key]; [done|].
  destruct (key_lt (sort_key y) (sort_key x)); [|done].
  rewrite perm_swap. by apply perm_skip.
Qed.

Lemma insert_by_key_In x l y : In y (insert_by_key x l) -> y = x \/ In y l.
Proof.
  intros H. apply (Permutation_in _ (Permutation_sym (insert_by_key_perm x l)))
    in H. destruct H as [<- | H]; auto.
Qed.

Lemma key_lt_false_trans a b c :
  key_lt b a = false -> key_lt c b = false -> key_lt c a = false.
Proof.
  intros H1 H2. destruct (key_lt c a) eqn:E; [|done].
  destruct (key_lt_between _ _ b E); congruence.
Qed.

Lemma insert_by_key_ordered x l : ordered l -> ordered (insert_by_key x l).
Proof.
  induction l as [|y l IH]; intros Ho; cbn [insert_by_key].
  - by split.
  - destruct Ho as [Hy Ho].
    destruct (key_lt (sort_key y) (sort_key x)) eqn:E.
    + split; [|by apply IH].
      intros z Hz. apply insert_by_key_In in Hz as [-> | Hz];
        [by apply key_lt_asym | by apply Hy].
    + split; [|by split].
      intros z [<- | Hz]; [done|].
      apply (key_lt_false_trans _ (sort_key y)); [done | by apply Hy].
Qed.

Lemma same_key_incomparable k x y :
  same_key k x = true -> same_key k y = true ->
  key_lt (sort_key y) (sort_key x) = false.
Proof.
  unfold same_key. rewrite !andb_true_iff, !negb_true_iff.
  intros [Hx1 Hx2] [Hy1 Hy2].
  destruct (key_lt (sort_key y) (sort_key x)) eqn:E; [|done].
  destruct (key_lt_between _ _ k E); congruence.
Qed.

Lemma filter_insert_by_key k x l :
  List.filter (same_key k) (insert_by_key x l)
  = List.filter (same_key k) (x :: l).
Proof.
  induction l as [|y l IH]; cbn [insert_by_key]; [done|].
  destruct (key_lt (sort_key y) (sort_key x)) eqn:E; [|done].
  cbn [List.filter] in *. rewrite IH.
  destruct (same_key k x) eqn:Kx; [|done].
  destruct (same_key k y) eqn:Ky; [|done].
  by rewrite (same_key_incomparable k x y Kx Ky) in E.
Qed.

(** X23.  [sorted] sorts, and stably: the result has the elements of the
    input, no element has a key before the key of an element placed earlier,
    and the elements of equal key come in the order they had in the input
    (so, on equal urgency, score and reception time, the recommendation
    queued first is served first). *)
Theorem sorted_is_a_stable_sort l :
  Permutation l (sorted l) /\
  ordered (sorted l) /\
  (forall k, List.filter (same_key k) (sorted l) = List.filter (same_key k) l).
Proof.
  induction l as [|x l (Hp & Ho & Hs)]; [by repeat split|].
  cbn [sorted]. split; [|split].
  - rewrite <- insert_by_key_perm. by apply perm_skip.
  - by apply insert_by_key_ordered.
  - intros k. rewrite filter_insert_by_key. cbn [List.filter].
    by rewrite Hs.
Qed.

End OrchestratorFacts.

(** * Properties of the decision ladder *)

Section DecisionFacts.
Import Decision.

Lemma Qgeb_true a b : Qgeb a b = true <-> (b <= a)%Q.
Proof. unfold Qgeb. apply Qle_bool_iff. Qed.

Lemma Qgeb_false a b : Qgeb a b = false <-> (a < b)%Q.
Proof.
  unfold Qgeb. split.
  - intros H. apply Qnot_le_lt. intros Hle. apply Qle_bool_iff in Hle.
    congruence.
  - intros H. destruct (Qle_bool b a) eqn:E; [|done].
    apply Qle_bool_iff in E. exfalso. by apply (Qlt_not_le a b).
Qed.

(** Case analysis on a test [score >= threshold], leaving the rational
    inequality in the context. *)
Ltac case_Qgeb a b :=
  let E := fresh "E" in
  destruct (Qgeb a b) eqn:E;
  [apply Qgeb_true in E | apply Qgeb_false in E].

(** The ladder of [_determine_action] with the default thresholds. *)
Lemma determine_action_default sc :
  ((95 <= sc)%Q -> determine_action default_config sc = (ESTOP, IMMEDIATE)) /\
  ((80 <= sc < 95)%Q -> determine_action default_config sc = (STOP, IMMEDIATE)) /\
  ((65 <= sc < 80)%Q -> determine_action default_config sc = (SLOW_25, HIGH)) /\
  ((50 <= sc < 65)%Q -> determine_action default_config sc = (SLOW_50, HIGH)) /\
  ((25 <= sc < 50)%Q -> determine_action default_config sc = (ALERT, NORMAL)) /\
  ((sc < 25)%Q -> determine_action default_config sc = (NONE, LOW)).
Proof.
  unfold determine_action, default_config; cbn [threshold_estop threshold_stop
    threshold_slow_25 threshold_slow_50 threshold_alert].
  case_Qgeb sc 95%Q; case_Qgeb sc 80%Q; case_Qgeb sc 65%Q;
    case_Qgeb sc 50%Q; case_Qgeb sc 25%Q;
    repeat split; intros; try reflexivity; exfalso; lra.
Qed.

Lemma decided_confident ag g :
  global_risk ag = Some g ->
  (min_confidence (config ag) <= read_confidence g)%Q ->
  decided ag
  = match determine_action (config ag) (read_score g) with
    | (NONE, _) => None
    | au => Some au
    end
  /\ (forall r, fst (evaluate_and_recommend ag) = Some r ->
                 risk_score r = read_score g
                 /\ confidence r = read_confidence g).
Proof.
  intros Hg Hconf. unfold decided, evaluate_and_recommend.
  rewrite Hg. cbn [from_option id].
  fold (read_score g) (read_confidence g).
  assert (E : Signals.Qltb (read_confidence g) (min_confidence (config ag))
              = false).
  { apply Qltb_nlt. by apply Qle_not_lt. }
  rewrite E.
  destruct (determine_action (config ag) (read_score g)) as [a u].
  destruct a; cbn; split; try done; by intros r [= <-].
Qed.

Lemma undecided_unconfident ag g :
  global_risk ag = Some g ->
  (read_confidence g < min_confidence (config ag))%Q ->
  evaluate_and_recommend ag = (None, ag).
Proof.
  intros Hg Hconf. unfold evaluate_and_recommend.
  rewrite Hg. cbn [from_option id]. fold (read_confidence g).
  apply Qltb_lt in Hconf. by rewrite Hconf.
Qed.

(** C7.  With the default configuration and a global risk whose score reads
    [sc] and whose confidence reads [conf]: when [conf] is at least
    [min_confidence] (0.7) the agent decides by the ladder on [sc], and the
    recommendation carries [sc] and [conf]; when [conf] is below, it makes no
    recommendation and the cycle sends nothing, whatever [sc] is. *)
Theorem decision_ladder_and_confidence_gate ag g :
  config ag = default_config ->
  global_risk ag = Some g ->
  let sc := read_score g in
  let conf := read_confidence g in
  ((7 # 10 <= conf)%Q ->
     ((95 <= sc)%Q -> decided ag = Some (ESTOP, IMMEDIATE)) /\
     ((80 <= sc < 95)%Q -> decided ag = Some (STOP, IMMEDIATE)) /\
     ((65 <= sc < 80)%Q -> decided ag = Some (SLOW_25, HIGH)) /\
     ((50 <= sc < 65)%Q -> decided ag = Some (SLOW_50, HIGH)) /\
     ((25 <= sc < 50)%Q -> decided ag = Some (ALERT, NORMAL)) /\
     ((sc < 25)%Q -> decided ag = None) /\
     (forall r, fst (evaluate_and_recommend ag) = Some r ->
                risk_score r = sc /\ confidence r = conf))
  /\
  ((conf < 7 # 10)%Q ->
     fst (evaluate_and_recommend ag) = None /\
     forall now, fst (cycle now ag) = None).
Proof.
  intros Hcfg Hg sc conf. subst sc conf. split.
  - intros Hconf.
    assert (Hmin : (min_confidence (config ag) <= read_confidence g)%Q)
      by (by rewrite Hcfg).
    destruct (decided_confident ag g Hg Hmin) as [Hd Hr].
    rewrite Hcfg in Hd.
    destruct (determine_action_default (read_score g))
      as (L1 & L2 & L3 & L4 & L5 & L6).
    repeat split; try (intros H; rewrite Hd;
      first [by rewrite (L1 H) | by rewrite (L2 H) | by rewrite (L3 H)
            | by rewrite (L4 H) | by rewrite (L5 H) | by rewrite (L6 H)]);
      by apply Hr.
  - intros Hconf.
    assert (Hmin : (read_confidence g < min_confidence (config ag))%Q)
      by (by rewrite Hcfg).
    assert (E := undecided_unconfident ag g Hg Hmin).
    split; [by rewrite E|].
    intros now. unfold cycle. rewrite Hg, E. done.
Qed.

Lemma decision_ladder_and_confidence_gate_witness :
  let ag := {| config := default_config;
               global_risk := Some {| g_score := Some 85%Q;
                                      g_confidence := Some (85 # 100) |};
               current_risks := [("collision", 90%Q); ("distance", 80%Q)];
               action_history := ∅; action_id := 0%nat;
               decisions_made := 0%nat; actions_recommended := 0%nat |} in
  decided ag = Some (STOP, IMMEDIATE).
Proof.
  intros ag.
  destruct (proj1 (decision_ladder_and_confidence_gate ag
                     {| g_score := Some 85%Q; g_confidence := Some (85 # 100) |}
                     eq_refl eq_refl))
    as (_ & H & _).
  - vm_compute. discriminate.
  - apply H. split; vm_compute; [discriminate | reflexivity].
Defined.

(** *** The fields of a recommendation *)

(** X19.  Whatever the thresholds are, the fields of a recommendation agree
    with one another: the action is never [NONE] nor [LOG]; the urgency is
    [IMMEDIATE] exactly for [STOP] and [ESTOP], [HIGH] exactly for the two
    slow-downs, [NORMAL] exactly for [ALERT], and never [LOW]; an
    acknowledgement is required exactly for [STOP] and [ESTOP]; and the
    recommendation may be executed automatically exactly when automatic
    execution is enabled and the action is not [ALERT]. *)
Theorem recommendation_fields_agree ag r :
  fst (evaluate_and_recommend ag) = Some r ->
  action r <> NONE /\ action r <> LOG /\ urgency r <> LOW /\
  (urgency r = IMMEDIATE <-> action r = STOP \/ action r = ESTOP) /\
  (urgency r = HIGH <-> action r = SLOW_25 \/ action r = SLOW_50) /\
  (urgency r = NORMAL <-> action r = ALERT) /\
  (requires_ack r = true <-> action r = STOP \/ action r = ESTOP) /\
  (auto_execute r = true
   <-> auto_execute_enabled (config ag) = true /\ action r <> ALERT).
Proof.
  unfold evaluate_and_recommend.
  destruct (Signals.Qltb _ _); [discriminate|].
  unfold determine_action, can_auto_execute.
  destruct (Qgeb _ (threshold_estop _)); [|
  destruct (Qgeb _ (threshold_stop _)); [|
  destruct (Qgeb _ (threshold_slow_25 _)); [|
  destruct (Qgeb _ (threshold_slow_50 _)); [|
  destruct (Qgeb _ (threshold_alert _))]]]];
    cbn; try discriminate; intros [= <-]; cbn;
    destruct (auto_execute_enabled (config ag)); cbn;
    repeat split; try discriminate; try tauto; try (intros [?|?]; discriminate);
    try (intros [? ?]; try discriminate; tauto); auto.
Qed.

Lemma recommendation_fields_agree_witness :
  let ag := {| config := default_config;
               global_risk := Some {| g_score := Some 97%Q;
                                      g_confidence := Some (9 # 10) |};
               current_risks := [("distance", 100%Q)];
               action_history := ∅; action_id := 0%nat;
               decisions_made := 0%nat; actions_recommended := 0%nat |} in
  exists r, fst (evaluate_and_recommend ag) = Some r /\
            action r <> NONE /\ urgency r <> LOW.
Proof.
  intros ag. eexists. split; [reflexivity|].
  split.
  - exact (proj1 (recommendation_fields_agree ag _ eq_refl)).
  - exact (proj1 (proj2 (proj2 (recommendation_fields_agree ag _ eq_refl)))).
Defined.

(** X20.  When the thresholds are in increasing order (alert, slow 50,
    slow 25, stop, e-stop), a higher score never gets a milder action. *)
Theorem higher_score_never_milder c sc1 sc2 :
  (threshold_alert c <= threshold_slow_50 c)%Q ->
  (threshold_slow_50 c <= threshold_slow_25 c)%Q ->
  (threshold_slow_25 c <= threshold_stop c)%Q ->
  (threshold_stop c <= threshold_estop c)%Q ->
  (sc1 <= sc2)%Q ->
  action_value (fst (determine_action c sc1))
  <= action_value (fst (determine_action c sc2)).
Proof.
  intros H1 H2 H3 H4 Hsc. unfold determine_action.
  case_Qgeb sc1 (threshold_estop c); case_Qgeb sc1 (threshold_stop c);
    case_Qgeb sc1 (threshold_slow_25 c); case_Qgeb sc1 (threshold_slow_50 c);
    case_Qgeb sc1 (threshold_alert c);
    case_Qgeb sc2 (threshold_estop c); case_Qgeb sc2 (threshold_stop c);
    case_Qgeb sc2 (threshold_slow_25 c); case_Qgeb sc2 (threshold_slow_50 c);
    case_Qgeb sc2 (threshold_alert c);
    cbn; first [lia | exfalso; lra].
Qed.

Lemma higher_score_never_milder_witness :
  action_value (fst (determine_action default_config 55))
  <= action_value (fst (determine_action default_config 90)).
Proof.
  apply (higher_score_never_milder default_config 55 90);
    vm_compute; discriminate.
Defined.

(** *** The cooldown of recommendations *)

(** X21.  A recommendation accepted at [t1] blocks the recommendations of
    the same action and category until the cooldown has passed: one checked
    at [t2] is refused, and the history left as it is, when less than
    [action_cooldown_s] has passed since [t1], and accepted otherwise. *)
Theorem accepted_recommendation_starts_cooldown t1 t2 c r r' h :
  fst (check_cooldown t1 c r h) = true ->
  action r' = action r -> risk_category r' = risk_category r ->
  let h1 := snd (check_cooldown t1 c r h) in
  ((inject_Z (t2 - t1) / inject_Z 1000000 < action_cooldown_s c)%Q ->
     check_cooldown t2 c r' h1 = (false, h1))
  /\
  ((action_cooldown_s c <= inject_Z (t2 - t1) / inject_Z 1000000)%Q ->
     fst (check_cooldown t2 c r' h1) = true).
Proof.
  intros Hok Ha Hc h1.
  assert (Hh1 : h1 !! (action_name (action r) ++ "_" ++ risk_category r)%string
                = Some t1).
  { subst h1. unfold check_cooldown in *.
    destruct (h !! _) as [last|].
    - destruct (Signals.Qltb _ _); [discriminate|]. cbn. apply lookup_insert_eq.
    - cbn. apply lookup_insert_eq. }
  unfold check_cooldown. rewrite Ha, Hc, Hh1. split.
  - intros Hlt. apply Qltb_lt in Hlt. by rewrite Hlt.
  - intros Hle.
    assert (E : Signals.Qltb (inject_Z (t2 - t1) / inject_Z 1000000)
                  (action_cooldown_s c) = false).
    { apply Qltb_nlt. by apply Qle_not_lt. }
    by rewrite E.
Qed.

Lemma accepted_recommendation_starts_cooldown_witness :
  let r := {| action := SLOW_50; urgency := HIGH; risk_category := "distance";
              risk_score := 55; confidence := 9 # 10;
              suppression_duration_s := 2; requires_ack := false;
              auto_execute := true |} in
  let h1 := snd (check_cooldown 1000000 default_config r ∅) in
  check_cooldown 1500000 default_config r h1 = (false, h1).
Proof.
  intros r h1.
  assert (Hok : fst (check_cooldown 1000000 default_config r ∅) = true)
    by (vm_compute; reflexivity).
  apply (proj1 (accepted_recommendation_starts_cooldown 1000000 1500000
                  default_config r r ∅ Hok eq_refl eq_refl)).
  reflexivity.
Defined.

(** *** The dominant risk *)

(** The loop of [_find_dominant_risk] from an intermediate state. *)
Lemma dominant_fold_below (l : list (string * Q)) : forall acc b,
  (fst acc < b)%Q -> (forall x, In x l -> (snd x < b)%Q) ->
  (fst (foldl (fun acc cr =>
                 if Signals.Qltb (fst acc) (snd cr) then (snd cr, fst cr)
                 else acc) acc l) < b)%Q.
Proof.
  induction l as [|x l IH]; intros acc b Hacc Hl; [done|].
  cbn [foldl]. apply IH; [|intros y Hy; apply Hl; by right].
  destruct (Signals.Qltb (fst acc) (snd x)); [|done].
  cbn. apply Hl. by left.
Qed.

Lemma dominant_fold_keeps (l : list (string * Q)) : forall acc,
  (forall x, In x l -> (snd x <= fst acc)%Q) ->
  foldl (fun acc cr =>
           if Signals.Qltb (fst acc) (snd cr) then (snd cr, fst cr)
           else acc) acc l = acc.
Proof.
  induction l as [|x l IH]; intros acc Hl; [done|].
  cbn [foldl].
  assert (E : Signals.Qltb (fst acc) (snd x) = false).
  { apply Qltb_nlt. apply Qle_not_lt. apply Hl. by left. }
  rewrite E. apply IH. intros y Hy. apply Hl. by right.
Qed.

(** X22.  The dominant risk is the first category of highest score: a
    category whose score is positive, greater than every score before it and
    at least every score after it is the one returned; when no score is
    positive (in particular when there is no category) the result is
    ["unknown"]. *)
Theorem dominant_risk_is_first_highest risks :
  ((forall x, In x risks -> (snd x <= 0)%Q) ->
     find_dominant_risk risks = "unknown")
  /\
  (forall before c sc after,
     risks = before ++ (c, sc) :: after ->
     (0 < sc)%Q ->
     (forall x, In x before -> (snd x < sc)%Q) ->
     (forall x, In x after -> (snd x <= sc)%Q) ->
     find_dominant_risk risks = c).
Proof.
  unfold find_dominant_risk. split.
  - intros H. by rewrite dominant_fold_keeps.
  - intros before c sc after -> Hpos Hb Ha.
    rewrite foldl_app. cbn [foldl].
    assert (Hlt := dominant_fold_below before (0%Q, "unknown") sc Hpos Hb).
    apply Qltb_lt in Hlt. cbn [snd fst] in *. rewrite Hlt.
    by rewrite dominant_fold_keeps.
Qed.

Lemma dominant_risk_is_first_highest_witness :
  find_dominant_risk [("distance", 40%Q); ("collision", 80%Q);
                      ("exposure", 80%Q); ("equipment", 25%Q)] = "collision".
Proof.
  apply (proj2 (dominant_risk_is_first_highest _)
           [("distance", 40%Q)] "collision" 80%Q
           [("exposure", 80%Q); ("equipment", 25%Q)] eq_refl).
  - reflexivity.
  - intros x [<- | []]. reflexivity.
  - intros x [<- | [<- | []]]; vm_compute; discriminate.
Defined.

End DecisionFacts.

(** * Properties of the collision risk *)

Section AnalysisFacts.
Import Analysis.









(** *** Distance risk *)




(** *** Global risk *)






End AnalysisFacts.

(** * The heartbeat rule after a watchdog timeout *)

Section RuleFacts.
Import StateMachine Rules.

(** After a watchdog pass has put [plc_heartbeat] in timeout, the snapshot
    holds the fail-safe value of the signal; the predicate of RS-002 tests
    for [None] and is false whenever that fail-safe value is not [None]. *)
Lemma RS002_false_after_timeout now m s d :
  Signals.signals m !! "plc_heartbeat" = Some s ->
  Signals.definitions m !! "plc_heartbeat" = Some d ->
  Signals.consistent m ->
  Signals.d_fail_safe_value d <> PNone ->
  (Signals.d_timeout_ms d < Signals.age_ms now s)%Q ->
  Signals.s_quality s <> Signals.TIMEOUT ->
  cond_RS002 (get_signal_values (Signals.check_timeouts now m)) = Some false.
Proof.
  intros Hs Hd Hc Hfs Hage Hq.
  destruct (Hc _ _ Hs) as (d' & Hd' & Hv).
  assert (d' = d) by congruence. subst d'.
  assert (Hdue : Signals.due now (Signals.definitions m) ("plc_heartbeat", s)
                 = true).
  { unfold Signals.due. cbn [fst snd]. rewrite Hd.
    by apply timeout_due_spec. }
  unfold cond_RS002, get_signal_values, Signals.get_all_signals.
  rewrite lookup_fmap, check_timeouts_lookup, Hs. cbn [fmap option_fmap option_map].
  rewrite Hdue. cbn [Signals.timed_out Signals.s_value]. rewrite Hv.
  by destruct (Signals.d_fail_safe_value d).
Qed.

Lemma request_estop_reaches_estop now trig rid sm :
  current_state (machine (request_estop now trig rid sm)) = StateMachine.ESTOP.
Proof.
  unfold request_estop, transition_to.
  destruct (SafetyState_eqb (current_state sm) StateMachine.ESTOP) eqn:E.
  - simpl. by apply SafetyState_eqb_eq.
  - done.
Qed.

(** What RS-002 does catch: a snapshot without the signal (a signal that was
    never registered).  The rule then triggers and the machine goes to
    [ESTOP]. *)
Lemma RS002_fires_without_signal now m sm :
  Signals.signals m !! "plc_heartbeat" = None ->
  let ev := evaluate_rule now m RS002 sm in
  triggered (ev_result ev) = true /\
  current_state (ev_machine ev) = StateMachine.ESTOP.
Proof.
  intros Hs. unfold evaluate_rule. cbn [enabled RS002 rule negb can_trigger
    last_triggered condition].
  unfold cond_RS002, get_signal_values, Signals.get_all_signals.
  rewrite lookup_fmap, Hs. cbn. split; [done|].
  apply request_estop_reaches_estop.
Qed.

(** C1 on the welding cell.  The heartbeat was written at 1 s and never
    again; the watchdog pass at 1.6 s finds it 600 ms old, over its timeout of
    500 ms, and stores quality [TIMEOUT] with the fail-safe value 0.  On the
    snapshot taken after that pass the predicate of RS-002 is false, no rule
    of the cell triggers, and the machine is still in [NORMAL], not in
    [ESTOP]. *)
Theorem heartbeat_loss_leaves_machine_running :
  (fun s => (Signals.s_value s, Signals.s_quality s))
    <$> Signals.get_signal store_before_loss "plc_heartbeat"
  = Some (PInt 12345, Signals.GOOD)
  /\
  (fun s => (Signals.s_value s, Signals.s_quality s))
    <$> Signals.get_signal store_after_loss "plc_heartbeat"
  = Some (PInt 0, Signals.TIMEOUT)
  /\
  cond_RS002 (get_signal_values store_after_loss) = Some false
  /\
  current_state machine_in_normal = NORMAL
  /\
  let r := evaluate_all 1600000 store_after_loss welding_engine
             machine_in_normal in
  List.filter triggered (fst (fst r)) = [] /\
  In ("RS-002", false)
     (map (fun x => (r_rule_id x, triggered x)) (fst (fst r))) /\
  current_state (snd r) = NORMAL /\
  current_state (snd r) <> StateMachine.ESTOP.
Proof.
  split; [vm_compute; reflexivity|].
  split; [vm_compute; reflexivity|].
  split; [vm_compute; reflexivity|].
  split; [vm_compute; reflexivity|].
  cbv zeta.
  split; [vm_compute; reflexivity|].
  split; [vm_compute; tauto|].
  split; [vm_compute; reflexivity | vm_compute; discriminate].
Qed.

(** *** One rule evaluation *)



(** X15.  Only a rule that triggers acts.  When the result says "not
    triggered" (the rule is disabled, or cooling down, or its predicate is
    false, or its predicate raised) the machine and the rule's trigger state
    are untouched and no action is listed; a predicate that raises is
    reported as an error and counted, a disabled rule is not even
    evaluated. *)
Theorem untriggered_rule_changes_nothing now m r sm :
  (triggered (ev_result (evaluate_rule now m r sm)) = false ->
     ev_machine (evaluate_rule now m r sm) = sm /\
     ev_rule (evaluate_rule now m r sm) = r /\
     actions_executed (ev_result (evaluate_rule now m r sm)) = [] /\
     ev_triggered (evaluate_rule now m r sm) = 0%nat)
  /\
  (enabled r = true -> can_trigger now r = true ->
   condition r (get_signal_values m) = None ->
     triggered (ev_result (evaluate_rule now m r sm)) = false /\
     error (ev_result (evaluate_rule now m r sm)) = true /\
     ev_errors (evaluate_rule now m r sm) = 1%nat)
  /\
  (enabled r = false ->
     triggered (ev_result (evaluate_rule now m r sm)) = false /\
     error (ev_result (evaluate_rule now m r sm)) = false /\
     ev_errors (evaluate_rule now m r sm) = 0%nat).
Proof.
  unfold evaluate_rule. split; [|split].
  - destruct (enabled r); cbn [negb]; [|done].
    destruct (can_trigger now r); cbn [negb]; [|done].
    by destruct (condition r (get_signal_values m)) as [[|]|].
  - intros -> -> ->. by cbn.
  - intros ->. by cbn.
Qed.

Lemma untriggered_rule_changes_nothing_witness :
  let m := snd (Signals.update_signal 5 "scanner_zone_status" PNone
                  Signals.GOOD None store_before_loss) in
  let r := rule "RS-010" "Scanner PROTECT zone" P1_HIGH cond_RS010
             [act STOP_CAT1 None None []] ["scanner_zone_status"] 0 in
  error (ev_result (evaluate_rule 10 m r machine_in_normal)) = true /\
  ev_machine (evaluate_rule 10 m r machine_in_normal) = machine_in_normal.
Proof.
  intros m r.
  destruct (untriggered_rule_changes_nothing 10 m r machine_in_normal)
    as (H1 & H2 & _).
  destruct H2 as (Ht & He & _); [reflexivity | reflexivity
                                | vm_compute; reflexivity |].
  split; [exact He | exact (proj1 (H1 Ht))].
Defined.

(** *** A whole cycle *)

Lemma evaluate_bucket_ids now m rs : forall sm,
  map (fun ev => r_rule_id (ev_result ev)) (fst (evaluate_bucket now m rs sm))
  = map id rs.
Proof.
  induction rs as [|r rest IH]; intros sm; [done|].
  cbn [evaluate_bucket].
  specialize (IH (ev_machine (evaluate_rule now m r sm))).
  destruct (evaluate_bucket now m rest (ev_machine (evaluate_rule now m r sm)))
    as [evs sm'].
  cbn [fst map] in *. rewrite IH. f_equal.
  unfold evaluate_rule.
  destruct (negb (enabled r)); [done|].
  destruct (negb (can_trigger now r)); [done|].
  by destruct (condition r (get_signal_values m)) as [[|]|].
Qed.

Lemma evaluate_priorities_ids now m e ps : forall sm,
  map (fun ev => r_rule_id (ev_result ev))
      (concat (map snd (fst (evaluate_priorities now m e ps sm))))
  = map id (concat (map (rules_by_priority e) ps)).
Proof.
  induction ps as [|p rest IH]; intros sm; [done|].
  cbn [evaluate_priorities].
  assert (Hb := evaluate_bucket_ids now m (rules_by_priority e p) sm).
  destruct (evaluate_bucket now m (rules_by_priority e p) sm) as [evs sm1].
  specialize (IH sm1).
  destruct (evaluate_priorities now m e rest sm1) as [more sm2].
  cbn [fst snd map concat] in *.
  by rewrite !map_app, Hb, IH.
Qed.

(** X16.  A cycle evaluates every registered rule once, critical rules
    first: the results are one per rule, in the order P0, P1, P2, P3, P4 and,
    within a priority, in the order of registration, whether or not rules
    triggered or raised on the way; and the cycle is counted. *)
Theorem cycle_evaluates_every_rule_in_priority_order now m e sm :
  map r_rule_id (fst (fst (evaluate_all now m e sm)))
  = map id (rules_by_priority e P0_CRITICAL ++ rules_by_priority e P1_HIGH ++
            rules_by_priority e P2_MEDIUM ++ rules_by_priority e P3_LOW ++
            rules_by_priority e P4_DIAGNOSTIC)
  /\ eval_count (snd (fst (evaluate_all now m e sm))) = S (eval_count e).
Proof.
  unfold evaluate_all.
  assert (H := evaluate_priorities_ids now m e all_priorities sm).
  destruct (evaluate_priorities now m e all_priorities sm) as [pp sm'].
  cbn [fst snd eval_count] in *. split; [|done].
  rewrite map_map. rewrite H. cbn. by rewrite app_nil_r.
Qed.

Lemma execute_action_in_estop now rid a sm :
  current_state sm = StateMachine.ESTOP -> execute_action now rid a sm = sm.
Proof.
  intros Hs. unfold execute_action, request_estop, request_stop, request_slow,
    transition_to, can_transition_to.
  destruct (action_type a); cbn; by rewrite ?Hs.
Qed.

Lemma evaluate_rule_in_estop now m r sm :
  current_state sm = StateMachine.ESTOP ->
  ev_machine (evaluate_rule now m r sm) = sm.
Proof.
  intros Hs. unfold evaluate_rule.
  destruct (negb (enabled r)); [done|].
  destruct (negb (can_trigger now r)); [done|].
  destruct (condition r (get_signal_values m)) as [[|]|]; try done.
  cbn [ev_machine]. induction (actions r) as [|a l IH]; [done|].
  cbn [foldl]. by rewrite execute_action_in_estop.
Qed.

Lemma evaluate_bucket_in_estop now m rs sm :
  current_state sm = StateMachine.ESTOP ->
  snd (evaluate_bucket now m rs sm) = sm.
Proof.
  intros Hs. induction rs as [|r rest IH]; [done|].
  cbn [evaluate_bucket]. rewrite (evaluate_rule_in_estop now m r sm Hs).
  destruct (evaluate_bucket now m rest sm) as [evs sm']. by cbn in *.
Qed.

(** X17.  The rule engine cannot lift an emergency stop: a cycle that
    starts with the machine in [ESTOP] leaves the machine exactly as it was,
    whatever the rules, their actions and the signals are. *)
Theorem rule_cycle_keeps_estop now m e sm :
  current_state sm = StateMachine.ESTOP ->
  snd (evaluate_all now m e sm) = sm.
Proof.
  intros Hs. unfold evaluate_all.
  assert (H : forall ps, snd (evaluate_priorities now m e ps sm) = sm).
  { induction ps as [|p rest IH]; [done|]. cbn [evaluate_priorities].
    assert (Hb := evaluate_bucket_in_estop now m (rules_by_priority e p) sm Hs).
    destruct (evaluate_bucket now m (rules_by_priority e p) sm) as [evs sm1].
    cbn in Hb. subst sm1.
    destruct (evaluate_priorities now m e rest sm) as [more sm2].
    by cbn in *. }
  specialize (H all_priorities).
  destruct (evaluate_priorities now m e all_priorities sm) as [pp sm'].
  by cbn in *.
Qed.

Lemma rule_cycle_keeps_estop_witness :
  let sm := machine (request_estop 1 "emergency" None machine_in_normal) in
  snd (evaluate_all 1600000 store_after_loss welding_engine sm) = sm.
Proof.
  intros sm.
  apply (rule_cycle_keeps_estop 1600000 store_after_loss welding_engine sm).
  reflexivity.
Defined.

(** X18.  The actions of a rule never raise the maximal speed, with one
    exception: [SLOW_50] executed in [SLOW_25] takes the machine to
    [SLOW_50], from 25 % to 50 %. *)
Theorem rule_action_lowers_speed_except_slow_50 now rid a sm :
  let sm' := execute_action now rid a sm in
  max_speed_percent (current_state sm') <= max_speed_percent (current_state sm)
  \/ (action_type a = SLOW_50 /\
       current_state sm = StateMachine.SLOW_25 /\
       current_state sm' = StateMachine.SLOW_50).
Proof.
  unfold execute_action, request_estop, request_stop, request_slow,
    transition_to, can_transition_to.
  destruct (action_type a), (current_state sm) eqn:E; cbn; rewrite ?E;
    first [left; cbn; lia | right; by repeat split].
Qed.

End RuleFacts.

(** * Properties of the inbox *)

Section BusFacts.
Import Bus.

Lemma drain_spec now (q : list AgentMessage) : forall processed,
  let '(handled, dropped, rest_q) := drain now processed q in
  exists taken,
    q = taken ++ rest_q /\
    handled = List.filter (fun m => negb (is_expired now m)) taken /\
    dropped = length (List.filter (is_expired now) taken) /\
    (processed + length handled <= Nat.max processed 10)%nat /\
    (rest_q <> [] -> (10 <= processed + length handled)%nat).
Proof.
  induction q as [|msg rest IH]; intros processed; cbn [drain].
  - exists []. repeat split; try done. cbn. lia.
  - destruct (processed <? 10)%nat eqn:Ep.
    + apply Nat.ltb_lt in Ep.
      destruct (is_expired now msg) eqn:Ex.
      * specialize (IH processed).
        destruct (drain now processed rest) as [[handled dropped] rest_q].
        destruct IH as (taken & -> & -> & -> & H1 & H2).
        exists (msg :: taken). cbn [List.filter app]. rewrite Ex. cbn.
        repeat split; try done.
      * specialize (IH (S processed)).
        destruct (drain now (S processed) rest) as [[handled dropped] rest_q].
        destruct IH as (taken & -> & -> & -> & H1 & H2).
        exists (msg :: taken). cbn [List.filter app]. rewrite Ex. cbn.
        repeat split; try done; try lia.
        intros Hl. specialize (H2 Hl). lia.
    + apply Nat.ltb_ge in Ep. exists []. cbn.
      repeat split; try done; lia.
Qed.

(** X6.  [receive] on a bounded inbox.  With a positive [max_queue_size]
    and a queue within that bound, [receive] refuses the message exactly
    when the queue already holds [max_queue_size] messages; a refusal leaves
    the queue as it was and counts one dropped message, an acceptance
    appends the message at the end and counts nothing; either way the queue
    stays within the bound. *)
Theorem receive_keeps_the_inbox_bounded msg b :
  0 < max_queue_size b ->
  Z.of_nat (length (queue b)) <= max_queue_size b ->
  Z.of_nat (length (queue (snd (receive msg b)))) <= max_queue_size b /\
  (fst (receive msg b) = false <->
   Z.of_nat (length (queue b)) = max_queue_size b) /\
  (fst (receive msg b) = false ->
   queue (snd (receive msg b)) = queue b /\
   messages_dropped (snd (receive msg b)) = S (messages_dropped b)) /\
  (fst (receive msg b) = true ->
   queue (snd (receive msg b)) = queue b ++ [msg] /\
   messages_dropped (snd (receive msg b)) = messages_dropped b).
Proof.
  intros Hm Hl. unfold receive, full.
  assert (E : (max_queue_size b <=? 0) = false) by (apply Z.leb_gt; lia).
  rewrite E.
  destruct (max_queue_size b <=? Z.of_nat (length (queue b))) eqn:Ef;
    [apply Z.leb_le in Ef | apply Z.leb_gt in Ef];
    cbn [fst snd queue messages_dropped].
  - repeat split; intros; try done; lia.
  - rewrite length_app. cbn [length].
    repeat split; intros; try done; lia.
Qed.

Lemma receive_keeps_the_inbox_bounded_witness :
  let m1 := mkMessage "a" "decision" "orchestrator" "action_recommendation"
              HIGH [] 0 false 10 in
  let b := {| queue := [m1]; max_queue_size := 1;
              messages_received := 0; messages_dropped := 0 |} in
  fst (receive m1 b) = false /\ queue (snd (receive m1 b)) = [m1].
Proof.
  intros m1 b.
  destruct (receive_keeps_the_inbox_bounded m1 b
              ltac:(reflexivity) ltac:(cbn; lia)) as (_ & H & H' & _).
  assert (E : fst (receive m1 b) = false) by (apply H; reflexivity).
  split; [exact E | exact (proj1 (H' E))].
Defined.

(** X30.  [_process_inbox] consumes the oldest messages of the queue, in
    order: it hands to the handler those of them that have not expired, in
    the order of arrival and at most ten of them, counts the expired ones
    as dropped and the handled ones as received, and leaves the rest of the
    queue untouched.  It stops before the queue is empty only when ten
    messages were handled. *)
Theorem process_inbox_drains_in_order now b :
  exists taken,
    queue b = taken ++ queue (snd (process_inbox now b)) /\
    fst (process_inbox now b)
    = List.filter (fun m => negb (is_expired now m)) taken /\
    messages_dropped (snd (process_inbox now b))
    = (messages_dropped b + length (List.filter (is_expired now) taken))%nat /\
    messages_received (snd (process_inbox now b))
    = (messages_received b + length (fst (process_inbox now b)))%nat /\
    (length (fst (process_inbox now b)) <= 10)%nat /\
    (queue (snd (process_inbox now b)) <> [] ->
     length (fst (process_inbox now b)) = 10%nat).
Proof.
  unfold process_inbox.
  assert (H := drain_spec now (queue b) 0%nat).
  destruct (drain now 0 (queue b)) as [[handled dropped] rest_q].
  destruct H as (taken & E & -> & -> & H1 & H2).
  exists taken. cbn [fst snd queue messages_dropped messages_received].
  cbn in H1, H2. repeat split; try done.
  intros Hl. specialize (H2 Hl). lia.
Qed.

End BusFacts.
